(** * PyScript core: lifecycle hook orchestration (core/src/core.js)

    A shallow embedding of [core.js].  The file has two layers, and the
    embedding follows them:

    - the body of the per-flavour loop ([for (const [TYPE, interpreter] of
      TYPES)]): its closure variables ([id], [alreadyRegistered],
      [currentElement], [errors]), the helpers [dispatchDone], [getID],
      [fetchSource], [registerModule], the [hooks.main] table and the custom
      element class.  These are written in a small state-and-exception monad
      over [State];
    - the module level: the worker constructors [PyScriptWorker], the
      [stickyModule] call and the loop header with its [alreadyLive] guard.
      These use explicit state passing over [Page].

    Everything [core.js] imports is either a parameter of the section (pure
    helpers such as [dedent]), an oracle (the network, the interpreter's
    [run]), or an effect recorded in the trace ([dispatch], [io.stderr]). *)

From stdpp Require Import gmap strings list fin_maps pretty.

(** ** Values shared by both layers *)

(** A DOM element is known by its identity. *)
Definition ElemRef := nat.

(** A JavaScript [Error]: only its [message] is ever read. *)
Record JsError := mkError { message : string }.

#[global] Instance JsError_eq_dec : EqDecision JsError.
Proof. solve_decision. Defined.

(** How an execution ends: [Done] is a return or a fulfilled promise,
    [Failed] a throw or a rejected promise, [Hung] a promise that never
    settles. *)
Inductive Outcome := Done | Failed (e : JsError) | Hung.

#[global] Instance Outcome_eq_dec : EqDecision Outcome.
Proof. solve_decision. Defined.

(** How a synchronous call ends. *)
Inductive Completion := Normal | Abrupt (e : JsError).

#[global] Instance Completion_eq_dec : EqDecision Completion.
Proof. solve_decision. Defined.

(** What [io.stderr] is called with: an error object or a message. *)
Inductive StderrArg := ErrorObject (e : JsError) | Message (m : string).

#[global] Instance StderrArg_eq_dec : EqDecision StderrArg.
Proof. solve_decision. Defined.

(** The effects of the per-flavour code on its collaborators, in the order
    they happen.  [Resolved] and [Attached] are ghost events: they mark the
    point where the promise of [fetchSource] fulfils and the point where
    [connectedCallback] passes its [executed] guard. *)
Inductive Event :=
| Dispatch (element : ElemRef) (type what : string)
| Stderr (io : nat) (a : StderrArg)
| Fetch (url : string)
| Resolved (tag : ElemRef) (code : string)
| Run (element : ElemRef) (isAsync : bool) (code : string) (r : Outcome)
| ConsoleWarn (code : string)
| ConsoleDebug (msg : string)
| RegisterJsModule (interpreter : nat) (name : string) (keys : list string)
| CbCall (hook name : string)
| CbSettle (hook name : string) (c : Completion)
| LedgerSet (element : ElemRef)
| LedgerDelete (element : ElemRef)
| Attached (element : ElemRef).

#[global] Instance Event_eq_dec : EqDecision Event.
Proof. solve_decision. Defined.

(** The execution wrap polyscript hands to [onReady]: [{ io, run, runAsync,
    XWorker, interpreter }].  [run] and [runAsync] are oracles: [run] says
    how the synchronous call on a given code ends, [runAsync] what becomes of
    the promise it returns. *)
Record Wrap := mkWrap {
  io : nat;
  interpreter : nat;
  XWorker : nat;
  run : string -> Completion;
  runAsync : string -> Outcome;
}.

(** [this._wrap = withResolvers()]: a promise and its [resolve].  While the
    promise is unsettled it holds the continuations of the
    [connectedCallback] calls that await it, each with its [isAsync]. *)
Inductive WrapSlot :=
| Awaited (waiters : list bool)
| Settled (wrap : Wrap).

(** The properties of an element that [core.js] reads or writes.
    [attr_src] and [attr_target] are [getAttribute]'s results ([None] for
    [null]); [dom_id] is [super.id]; [_wrap], [srcCode] and [executed] are
    the fields the custom element's constructor assigns ([_wrap] is [None]
    on any other element); [target] is the property [defineProperty] adds. *)
Record Elem := mkElem {
  tagName : string;
  attr_src : option string;
  attr_target : option string;
  attr_sync : bool;
  textContent : string;
  innerHTML : string;
  childElementCount : nat;
  dom_id : string;
  target : option ElemRef;
  _wrap : option WrapSlot;
  srcCode : string;
  executed : bool;
  display : string;
}.

(** [document.createElement(tag)] and an element never seen before. *)
Definition blank (tag : string) : Elem :=
  {| tagName := tag; attr_src := None; attr_target := None; attr_sync := false;
     textContent := ""; innerHTML := ""; childElementCount := 0; dom_id := "";
     target := None; _wrap := None; srcCode := ""; executed := false;
     display := "" |}.

(** [const isScript = ({ tagName }) => tagName === "SCRIPT"] *)
Definition isScript (el : Elem) : bool := bool_decide (tagName el = "SCRIPT").

(** JavaScript truthiness of a string or [null]. *)
Definition truthy (v : option string) : bool :=
  match v with
  | Some s => negb (bool_decide (s = ""))
  | None => false
  end.

(** ** The state-and-exception monad *)

Inductive Res (A : Type) := Ok (a : A) | Throw (e : JsError).
Arguments Ok {A} a.
Arguments Throw {A} e.

Definition M (S A : Type) : Type := S -> S * Res A.

Definition ret {S A} (a : A) : M S A := fun s => (s, Ok a).

Definition throw {S A} (e : JsError) : M S A := fun s => (s, Throw e).

Definition bind {S A B} (m : M S A) (k : A -> M S B) : M S B :=
  fun s => match m s with
           | (s', Ok a) => k a s'
           | (s', Throw e) => (s', Throw e)
           end.

(** [try { m } catch (error) { h(error) }] *)
Definition try_catch {S A} (m : M S A) (h : JsError -> M S A) : M S A :=
  fun s => match m s with
           | (s', Ok a) => (s', Ok a)
           | (s', Throw e) => h e s'
           end.

Definition gets {S A} (f : S -> A) : M S A := fun s => (s, Ok (f s)).

Definition modify {S} (f : S -> S) : M S unit := fun s => (f s, Ok tt).

(** [for (const x of xs) body(x)]: a throwing body ends the loop. *)
Fixpoint for_of {S A} (xs : list A) (body : A -> M S unit) : M S unit :=
  match xs with
  | [] => ret tt
  | x :: rest => bind (body x) (fun _ => for_of rest body)
  end.

Declare Scope js_scope.
Delimit Scope js_scope with js.
Notation "x <- m ;; k" := (bind m (fun x => k))
  (at level 100, m at next level, right associativity) : js_scope.
Notation "m ;; k" := (bind m (fun _ => k))
  (at level 100, right associativity) : js_scope.
Open Scope js_scope.

Definition TypeError (what : string) : JsError := mkError ("TypeError: " +:+ what).

(** [assign(target, source)]: the source's properties win. *)
Definition assign (target source : gmap string nat) : gmap string nat :=
  source ∪ target.

(** [element.after(show)] on a document-order sequence of elements: [show]
    lands right behind the first occurrence of [element]; an element that is
    not in the sequence has no parent there, and nothing happens. *)
Fixpoint insert_after (element show : ElemRef) (l : list ElemRef) : list ElemRef :=
  match l with
  | [] => []
  | x :: rest =>
      if decide (x = element) then x :: show :: rest
      else x :: insert_after element show rest
  end.

(** Which checkpoints are asynchronous: the third argument [core.js] gives
    [createFunction] for each hook name, and the [async] of
    [hooks.main.onReady]. *)
Definition is_async_checkpoint (hook : string) : bool :=
  bool_decide (hook = "onReady") || bool_decide (hook = "onBeforeRunAsync")
  || bool_decide (hook = "onAfterRunAsync").

(** ** Values of the module level *)

(** A value as far as the module level tells values apart: a function is
    known by the promise its call returns. *)
Inductive JsValue :=
| VUndefined
| VString (s : string)
| VFunction (returns : nat)
| VPromise (p : nat).

(** One entry of [configs] ([config.js]):
    [{ config, configURL, plugins, error }]. *)
Record Config := mkConfig {
  config : gmap string JsValue;
  configURL : string;
  plugins : JsValue;
  error : option JsError;
}.

(** What [XWorker.call(new Hook(null, hooks), file, options)] returns: the
    worker with its [sync] mapping and its [ready] promise. *)
Record XWorkerObj := mkXWorker {
  xw_hooks : option nat;
  xw_file : string;
  xw_options : gmap string JsValue;
  xw_sync : gmap string nat;
  xw_ready : nat;
}.

(** A worker constructor made at line 55: a function object with the
    [TYPE] and [interpreter] it closes over. *)
Record WorkerCtor := mkCtor {
  ctor_id : nat;
  ctor_type : string;
  ctor_interpreter : string;
}.

(** The module's exports, each an object identity. *)
Record Exports := mkExports {
  exportedPyWorker : option WorkerCtor;
  exportedMPWorker : option WorkerCtor;
  exportedHooks : nat;
  exportedConfig : nat;
  exportedWhenDefined : nat;
}.

(** What one evaluation of the module imports from [./hooks.js] and
    [polyscript/exports]. *)
Record Imports := mkImports {
  imported_hooks : nat;
  imported_whenDefined : nat;
}.

(** What the per-flavour setup does to the page. *)
Inductive PageEvent :=
| PluginsCall (type : string)
| PluginsThen (promise : nat) (type interpreter : string)
| HookedSet (type : string) (hooks : nat)
| Define (type interpreter : string)
| CustomElementsDefine (name : string).

#[global] Instance PageEvent_eq_dec : EqDecision PageEvent.
Proof. solve_decision. Defined.

(** The page: [globalThis] as far as [Symbol.for] keys go, the object
    identities given out so far, plain objects by identity, the promises
    that have settled, the workers, and the setup performed. *)
Record Page := mkPage {
  global : gmap string Exports;
  heap : nat;
  objects : gmap nat (gmap string (gmap string JsValue));
  promises : gmap nat Outcome;
  xworkers : gmap nat XWorkerObj;
  setup_log : list PageEvent;
}.

(** What one evaluation of the module ends with. *)
Record Instance := mkInstance {
  exports : Exports;
  alreadyLive : bool;
  hooked : gmap string nat;
}.

Definition with_global (g : gmap string Exports) (p : Page) : Page :=
  mkPage g (heap p) (objects p) (promises p) (xworkers p) (setup_log p).

Definition with_heap (n : nat) (p : Page) : Page :=
  mkPage (global p) n (objects p) (promises p) (xworkers p) (setup_log p).

Definition with_objects (o : gmap nat (gmap string (gmap string JsValue))) (p : Page)
  : Page :=
  mkPage (global p) (heap p) o (promises p) (xworkers p) (setup_log p).

Definition with_xworkers (x : gmap nat XWorkerObj) (p : Page) : Page :=
  mkPage (global p) (heap p) (objects p) (promises p) x (setup_log p).

Definition with_setup_log (l : list PageEvent) (p : Page) : Page :=
  mkPage (global p) (heap p) (objects p) (promises p) (xworkers p) l.

Section Core.

(** The state plugins own. *)
Variable W : Type.

(** A plugin callback.  A plain function runs to its end when called.  An
    [async] function runs its part before the first [await] when called and
    returns a promise; the rest runs when the promise is driven, and a throw
    there is a rejection.  Both receive the two arguments of the hook.

    Range of the model: the callbacks embedded here are those that act on
    the plugins' own state [W] and leave the page alone.  The code hands a
    callback the wrap and the element themselves, so a callback of the code
    may also change the element or write to the wrap's streams; nothing
    below is stated of such a callback, and no statement about the page
    across a callback is meant to hold of one.  What a callback cannot
    reach in the code either are [alreadyRegistered] and the [errors] map,
    which are local to the loop body. *)
Inductive Callback :=
| SyncFn (name : string) (body : option Wrap -> nat -> W -> W * Completion)
| AsyncFn (name : string) (pre : option Wrap -> nat -> W -> W)
    (post : option Wrap -> nat -> W -> W * Completion).

Definition cb_name (cb : Callback) : string :=
  match cb with
  | SyncFn name _ => name
  | AsyncFn name _ _ => name
  end.

(** A microtask waiting for the running code to finish. *)
Inductive Job :=
| Resume (this : ElemRef) (isAsync : bool) (wrap : Wrap)
| ThenDone (element : ElemRef)
| Floating (hook name : string) (rest : W -> W * Completion).

(** The closure variables of one iteration of the per-flavour loop
    ([id_counter] is [let id = 0]; [errors] is the [Map] made once the
    plugins are in), the page, the plugins' state, and what was observed. *)
Record State := mkState {
  id_counter : nat;
  alreadyRegistered : bool;
  currentElement : option ElemRef;
  errors : gmap ElemRef JsError;
  nodes : gmap ElemRef Elem;
  fresh : ElemRef;
  doc_head : list ElemRef;
  doc_body : list ElemRef;
  sync_of : gmap nat (gmap string nat);
  pw : W;
  trace : list Event;
  jobs : list Job;
}.

Definition with_id_counter (n : nat) (s : State) : State :=
  mkState n (alreadyRegistered s) (currentElement s) (errors s) (nodes s)
    (fresh s) (doc_head s) (doc_body s) (sync_of s) (pw s) (trace s) (jobs s).

Definition with_alreadyRegistered (b : bool) (s : State) : State :=
  mkState (id_counter s) b (currentElement s) (errors s) (nodes s)
    (fresh s) (doc_head s) (doc_body s) (sync_of s) (pw s) (trace s) (jobs s).

Definition with_currentElement (e : option ElemRef) (s : State) : State :=
  mkState (id_counter s) (alreadyRegistered s) e (errors s) (nodes s)
    (fresh s) (doc_head s) (doc_body s) (sync_of s) (pw s) (trace s) (jobs s).

Definition with_errors (m : gmap ElemRef JsError) (s : State) : State :=
  mkState (id_counter s) (alreadyRegistered s) (currentElement s) m (nodes s)
    (fresh s) (doc_head s) (doc_body s) (sync_of s) (pw s) (trace s) (jobs s).

Definition with_nodes (m : gmap ElemRef Elem) (s : State) : State :=
  mkState (id_counter s) (alreadyRegistered s) (currentElement s) (errors s) m
    (fresh s) (doc_head s) (doc_body s) (sync_of s) (pw s) (trace s) (jobs s).

Definition with_fresh (r : ElemRef) (s : State) : State :=
  mkState (id_counter s) (alreadyRegistered s) (currentElement s) (errors s)
    (nodes s) r (doc_head s) (doc_body s) (sync_of s) (pw s) (trace s) (jobs s).

Definition with_doc_body (l : list ElemRef) (s : State) : State :=
  mkState (id_counter s) (alreadyRegistered s) (currentElement s) (errors s)
    (nodes s) (fresh s) (doc_head s) l (sync_of s) (pw s) (trace s) (jobs s).

Definition with_sync_of (m : gmap nat (gmap string nat)) (s : State) : State :=
  mkState (id_counter s) (alreadyRegistered s) (currentElement s) (errors s)
    (nodes s) (fresh s) (doc_head s) (doc_body s) m (pw s) (trace s) (jobs s).

Definition with_pw (w : W) (s : State) : State :=
  mkState (id_counter s) (alreadyRegistered s) (currentElement s) (errors s)
    (nodes s) (fresh s) (doc_head s) (doc_body s) (sync_of s) w (trace s) (jobs s).

Definition with_trace (t : list Event) (s : State) : State :=
  mkState (id_counter s) (alreadyRegistered s) (currentElement s) (errors s)
    (nodes s) (fresh s) (doc_head s) (doc_body s) (sync_of s) (pw s) t (jobs s).

Definition with_jobs (j : list Job) (s : State) : State :=
  mkState (id_counter s) (alreadyRegistered s) (currentElement s) (errors s)
    (nodes s) (fresh s) (doc_head s) (doc_body s) (sync_of s) (pw s) (trace s) j.

(** *** What the section takes from the modules [core.js] imports *)

(** The flavour of this iteration of the loop. *)
Variable TYPE : string.
(** [INVALID_CONTENT] of polyscript and [ErrorCode.CONFLICTING_CODE] of
    [exceptions.js]. *)
Variable INVALID_CONTENT : string.
Variable CONFLICTING_CODE : string.
(** [dedent], [unescape], [isSync] and [queryTarget] of polyscript; the last
    looks into the elements of the document, head then body. *)
Variable dedent : string -> string.
Variable unescape : string -> string.
Variable isSync : Elem -> bool.
Variable queryTarget :
  gmap ElemRef Elem -> list ElemRef -> ElemRef -> string -> option ElemRef.
(** [element.cloneNode(deep).outerHTML] *)
Variable outerHTML : Elem -> bool -> string.
(** The network: what [robustFetch(url).then(getText)] settles to. *)
Variable network : string -> JsError + string.
(** [main(name)] of [hooks.js]: the callbacks registered on the main thread
    for a hook, in the order iteration yields them. *)
Variable main : string -> list Callback.
(** The object [sync.js] exports. *)
Variable sync : gmap string nat.

Abbreviation Js := (M State).

(** *** Primitive effects *)

Definition emit (ev : Event) : Js unit :=
  modify (fun s => with_trace (trace s ++ [ev]) s).

Definition enqueue (j : Job) : Js unit :=
  modify (fun s => with_jobs (jobs s ++ [j]) s).

(** [dispatch(element, TYPE, what)] of polyscript. *)
Definition dispatch (element : ElemRef) (type what : string) : Js unit :=
  emit (Dispatch element type what).

(** [io.stderr(a)] *)
Definition stderr (io : nat) (a : StderrArg) : Js unit := emit (Stderr io a).

Definition elem (s : State) (r : ElemRef) : Elem := default (blank "") (nodes s !! r).

Definition get_elem (r : ElemRef) : Js Elem := gets (fun s => elem s r).

(** Writing a property of an element; a reference to no element of the
    page is written to nowhere. *)
Definition update_elem (r : ElemRef) (f : Elem -> Elem) : Js unit :=
  modify (fun s => with_nodes (alter f r (nodes s)) s).

Definition set_dom_id (v : string) (el : Elem) : Elem :=
  mkElem (tagName el) (attr_src el) (attr_target el) (attr_sync el) (textContent el)
    (innerHTML el) (childElementCount el) v (target el) (_wrap el) (srcCode el)
    (executed el) (display el).

Definition set_target (v : option ElemRef) (el : Elem) : Elem :=
  mkElem (tagName el) (attr_src el) (attr_target el) (attr_sync el) (textContent el)
    (innerHTML el) (childElementCount el) (dom_id el) v (_wrap el) (srcCode el)
    (executed el) (display el).

Definition set_wrap (v : option WrapSlot) (el : Elem) : Elem :=
  mkElem (tagName el) (attr_src el) (attr_target el) (attr_sync el) (textContent el)
    (innerHTML el) (childElementCount el) (dom_id el) (target el) v (srcCode el)
    (executed el) (display el).

Definition set_srcCode (v : string) (el : Elem) : Elem :=
  mkElem (tagName el) (attr_src el) (attr_target el) (attr_sync el) (textContent el)
    (innerHTML el) (childElementCount el) (dom_id el) (target el) (_wrap el) v
    (executed el) (display el).

Definition set_executed (v : bool) (el : Elem) : Elem :=
  mkElem (tagName el) (attr_src el) (attr_target el) (attr_sync el) (textContent el)
    (innerHTML el) (childElementCount el) (dom_id el) (target el) (_wrap el)
    (srcCode el) v (display el).

Definition set_display (v : string) (el : Elem) : Elem :=
  mkElem (tagName el) (attr_src el) (attr_target el) (attr_sync el) (textContent el)
    (innerHTML el) (childElementCount el) (dom_id el) (target el) (_wrap el)
    (srcCode el) (executed el) v.

(** [this.replaceChildren()]: no child is left. *)
Definition replaceChildren (el : Elem) : Elem :=
  mkElem (tagName el) (attr_src el) (attr_target el) (attr_sync el) "" "" 0
    (dom_id el) (target el) (_wrap el) (srcCode el) (executed el) (display el).

(** Plugin code runs on the plugins' state. *)
Definition run_plugin (f : W -> W * Completion) : Js Completion :=
  fun s => (with_pw (fst (f (pw s))) s, Ok (snd (f (pw s)))).

(** *** The helpers of the loop body *)

(** [const getID = (prefix = TYPE) => `${prefix}-${id++}`]

    Range of the model: [id] is a double in the code, and [id++] adds one
    exactly as long as [id] is below [2 ^ 53]; from there on the sum rounds
    back to [id] and the counter no longer moves.  The counter here is a
    natural number, so it agrees with the code on the states whose counter
    is below [2 ^ 53], and a statement that counts on the counter moving
    says so in a hypothesis. *)
Definition getID (prefix : string) : Js string :=
  n <- gets id_counter ;;
  modify (with_id_counter (S n)) ;;
  ret (prefix +:+ "-" +:+ pretty n).

(** [super.id = value], and the [set id(value)] of the custom element. *)
Definition write_id (r : ElemRef) (value : string) : Js unit :=
  update_elem r (set_dom_id value).

(** Reading [element.id].  An instance of the custom element class (it has
    a [_wrap]) answers with [super.id || (super.id = getID())]; any other
    element with its [id] attribute. *)
Definition read_id (r : ElemRef) : Js string :=
  el <- get_elem r ;;
  match _wrap el with
  | Some _ =>
      if bool_decide (dom_id el = "") then
        i <- getID TYPE ;; write_id r i ;; ret i
      else ret (dom_id el)
  | None => ret (dom_id el)
  end.

(** [fetch(url).then(getText)]: the request is made, and the promise
    settles as the network says. *)
Definition fetch_text (url : string) : Js string :=
  emit (Fetch url) ;;
  match network url with
  | inl error => throw error
  | inr text => ret text
  end.

(** [fetchSource(tag, io, asText)].  The [return] inside the [try] is the
    [Some] of the first step; every path ends where the returned promise
    fulfils, which the ghost event [Resolved] marks. *)
Definition fetchSource (tag : ElemRef) (io : nat) (asText : bool) : Js string :=
  el <- get_elem tag ;;
  fetched <-
    match attr_src el with
    | Some url =>
        try_catch (text <- fetch_text url ;; ret (Some text))
          (fun error => stderr io (ErrorObject error) ;; ret None)
    | None => ret None
    end ;;
  code <-
    match fetched with
    | Some text => ret text
    | None =>
        if asText then ret (dedent (textContent el))
        else
          let code := dedent (unescape (innerHTML el)) in
          emit (ConsoleWarn code) ;; ret code
    end ;;
  emit (Resolved tag code) ;;
  ret code.

(** [dispatchDone(element, isAsync, result)]: for an asynchronous unit the
    dispatch is the reaction [result.then(...)], queued when [result]
    fulfils and never when it rejects or stays pending. *)
Definition dispatchDone (element : ElemRef) (isAsync : bool) (result : Outcome)
  : Js unit :=
  if isAsync then
    match result with
    | Done => enqueue (ThenDone element)
    | _ => ret tt
    end
  else dispatch element TYPE "done".

(** [registerModule({ XWorker, interpreter, io })] *)
Definition registerModule (wrap : Wrap) : Js unit :=
  registered <- gets alreadyRegistered ;;
  if registered then ret tt
  else
    modify (with_alreadyRegistered true) ;;
    emit (RegisterJsModule (interpreter wrap) "_pyscript"
            ["PyWorker"; "fs"; "interpreter"; "js_import"; "target"]).

(** The [get target()] of the registered module. *)
Definition module_target : Js string :=
  cur <- gets currentElement ;;
  match cur with
  | None => throw (TypeError "currentElement is undefined")
  | Some e =>
      el <- get_elem e ;;
      if isScript el then
        match target el with
        | Some t => read_id t
        | None => throw (TypeError "currentElement.target is undefined")
        end
      else read_id e
  end.

(** How [wrap.run(code)] or [wrap.runAsync(code)] ends. *)
Definition run_outcome (wrap : Wrap) (isAsync : bool) (code : string) : Outcome :=
  if isAsync then runAsync wrap code
  else
    match run wrap code with
    | Normal => Done
    | Abrupt e => Failed e
    end.

(** [wrap.run(code)] or [wrap.runAsync(code)].  A throwing [run] throws
    here; [runAsync] hands back its promise whatever becomes of it. *)
Definition call_run (wrap : Wrap) (element : ElemRef) (isAsync : bool)
  (code : string) : Js Outcome :=
  let r := run_outcome wrap isAsync code in
  emit (Run element isAsync code r) ;;
  if isAsync then ret r
  else
    match r with
    | Failed e => throw e
    | _ => ret r
    end.

(** *** Calling plugin callbacks *)

(** [await callback(a, b)]: the callback has settled when this returns. *)
Definition call_awaited (hook : string) (a : option Wrap) (b : nat)
  (callback : Callback) : Js unit :=
  emit (CbCall hook (cb_name callback)) ;;
  c <-
    match callback with
    | SyncFn _ body => run_plugin (body a b)
    | AsyncFn _ pre post => run_plugin (fun w => post a b (pre a b w))
    end ;;
  emit (CbSettle hook (cb_name callback) c) ;;
  match c with
  | Normal => ret tt
  | Abrupt e => throw e
  end.

(** [callback(a, b)] with the result dropped: a plain function has run to
    its end (and its throw is thrown here), an [async] one has run up to its
    first [await] and the rest is left to the microtask queue.

    Range of the model: the rest of an [async] callback is one job, queued
    at the call, so the rests settle in the order of the calls and all by
    the end of the turn.  In the code a rest settles when what it awaits
    does, which may be in another order, in a later turn or never.  What
    the code itself fixes is that the calls are made in order and that none
    is waited for; the statements about dropped callbacks say that and
    leave the order of the settlements out. *)
Definition call_dropped (hook : string) (a : option Wrap) (b : nat)
  (callback : Callback) : Js unit :=
  emit (CbCall hook (cb_name callback)) ;;
  match callback with
  | SyncFn name body =>
      c <- run_plugin (body a b) ;;
      emit (CbSettle hook name c) ;;
      match c with
      | Normal => ret tt
      | Abrupt e => throw e
      end
  | AsyncFn name pre post =>
      modify (fun s => with_pw (pre a b (pw s)) s) ;;
      enqueue (Floating hook name (post a b))
  end.

(** Modelled from the spec: [bootstrapNodeAndPlugins] of [plugins-helper.js]
    is missing from the sources.  The spec's [invoke]: for a synchronous
    event it calls each callback in order, ignoring return values and
    letting a throw escape at once; for an asynchronous event it awaits each
    callback in order, and a rejection ends the chain and propagates. *)
Definition bootstrapNodeAndPlugins (main : string -> list Callback)
  (wrap : Wrap) (element : ElemRef) (hook : string) : Js unit :=
  if is_async_checkpoint hook then
    for_of (main hook) (call_awaited hook (Some wrap) element)
  else
    for_of (main hook) (call_dropped hook (Some wrap) element).

(** *** The custom element *)

(** [constructor()]: a new element, with [_wrap], [srcCode] and [executed]
    assigned over what the markup gave it. *)
Definition construct (markup : Elem) : Js ElemRef :=
  r <- gets fresh ;;
  modify (fun s => with_fresh (S r) (with_nodes (<[r :=
    set_executed false (set_srcCode "" (set_wrap (Some (Awaited [])) markup))]>
    (nodes s)) s)) ;;
  ret r.

(** [connectedCallback()] up to [await this._wrap.promise]: the rest waits
    on the promise, or is queued when the promise is already fulfilled. *)
Definition connectedCallback (this : ElemRef) : Js unit :=
  el <- get_elem this ;;
  if negb (executed el) then
    update_elem this (set_executed true) ;;
    emit (Attached this) ;;
    let isAsync := negb (isSync el) in
    match _wrap el with
    | None => throw (TypeError "this._wrap is undefined")
    | Some (Awaited waiters) =>
        update_elem this (set_wrap (Some (Awaited (waiters ++ [isAsync]))))
    | Some (Settled wrap) => enqueue (Resume this isAsync wrap)
    end
  else ret tt.

(** [connectedCallback()] from [const { io, run, runAsync } = ...] on. *)
Definition connectedCallback_resume (this : ElemRef) (isAsync : bool)
  (wrap : Wrap) : Js unit :=
  el <- get_elem this ;;
  code <- fetchSource this (io wrap) (bool_decide (childElementCount el = 0)) ;;
  update_elem this (set_srcCode code) ;;
  update_elem this replaceChildren ;;
  update_elem this (set_display "block") ;;
  dispatch this TYPE "ready" ;;
  result <- call_run wrap this isAsync code ;;
  dispatchDone this isAsync result.

(** [element._wrap.resolve(wrap)]: the first call fulfils the promise and
    queues what waits on it; a later call changes nothing. *)
Definition resolve_wrap (element : ElemRef) (wrap : Wrap) : Js unit :=
  el <- get_elem element ;;
  match _wrap el with
  | None => throw (TypeError "element._wrap is undefined")
  | Some (Awaited waiters) =>
      update_elem element (set_wrap (Some (Settled wrap))) ;;
      for_of waiters (fun isAsync => enqueue (Resume element isAsync wrap))
  | Some (Settled _) => ret tt
  end.

(** *** The document *)

(** [document.createElement(tag)] *)
Definition createElement (tag : string) : Js ElemRef :=
  r <- gets fresh ;;
  modify (fun s => with_fresh (S r) (with_nodes (<[r := blank tag]> (nodes s)) s)) ;;
  ret r.

(** [head.contains(element)] *)
Definition head_contains (element : ElemRef) : Js bool :=
  gets (fun s => bool_decide (element ∈ doc_head s)).

(** [body.append(show)] *)
Definition body_append (show : ElemRef) : Js unit :=
  modify (fun s => with_doc_body (doc_body s ++ [show]) s).

(** [element.after(show)], for an element that is not in the head. *)
Definition after (element show : ElemRef) : Js unit :=
  modify (fun s => with_doc_body (insert_after element show (doc_body s)) s).

(** *** [hooks.main] *)

(** [defineProperty(element, "target", { value: show })]: the property it
    makes can be neither written nor configured, so that defining it again
    leaves it as it is when [show] is the value it has, and throws when it
    is another. *)
Definition define_target (element show : ElemRef) : Js unit :=
  el <- get_elem element ;;
  match target el with
  | None => update_elem element (set_target (Some show))
  | Some known =>
      if decide (known = show) then ret tt
      else throw (TypeError "Cannot redefine property: target")
  end.

(** Lines 219 to 233 of [onReady]: the element the unit shows its output
    in, looked up or made, placed, named and attached to the unit. *)
Definition display_target (element : ElemRef) (el : Elem) : Js ElemRef :=
  let target := attr_target el in
  show <-
    (if truthy target then
       gets (fun s => queryTarget (nodes s) (doc_head s ++ doc_body s) element
                        (default "" target))
     else
       r <- createElement "script-py" ;; ret (Some r)) ;;
  (if truthy target then ret tt
   else
     match show with
     | Some r =>
         inHead <- head_contains element ;;
         if inHead then body_append r else after element r
     | None => ret tt
     end) ;;
  match show with
  | None => throw (TypeError "show is null")
  | Some r =>
      i <- read_id r ;;
      (if bool_decide (i = "") then
         fresh_id <- getID TYPE ;; write_id r fresh_id
       else ret tt) ;;
      define_target element r ;;
      ret r
  end.

(** Lines 205 to 248 of [onReady]: what follows the plugins' callbacks. *)
Definition onReady_body (wrap : Wrap) (element : ElemRef) : Js unit :=
  pending <- gets (fun s => errors s !! element) ;;
  match pending with
  | Some error =>
      modify (fun s => with_errors (delete element (errors s)) s) ;;
      emit (LedgerDelete element) ;;
      el <- get_elem element ;;
      let clone := bool_decide (message error = INVALID_CONTENT) in
      stderr (io wrap)
        (Message ("(" +:+ CONFLICTING_CODE +:+ ") " +:+ message error +:+ " for "
                  +:+ outerHTML el clone))
  | None =>
      el <- get_elem element ;;
      (if isScript el then
         let isAsync := negb (isSync el) in
         display_target element el ;;
         dispatch element TYPE "ready" ;;
         code <- fetchSource element (io wrap) true ;;
         result <- call_run wrap element isAsync code ;;
         dispatchDone element isAsync result
       else resolve_wrap element wrap) ;;
      emit (ConsoleDebug "[pyscript/main] PyScript Ready")
  end.

(** [async onReady(wrap, element)] *)
Definition onReady (wrap : Wrap) (element : ElemRef) : Js unit :=
  registerModule wrap ;;
  for_of (main "onReady") (call_awaited "onReady" (Some wrap) element) ;;
  onReady_body wrap element.

(** [onWorker(_, xworker)] *)
Definition onWorker (u : option Wrap) (xworker : nat) : Js unit :=
  modify (fun s => with_sync_of
    (<[xworker := assign (default ∅ (sync_of s !! xworker)) sync]> (sync_of s)) s) ;;
  for_of (main "onWorker") (call_dropped "onWorker" u xworker).

(** [onBeforeRun(wrap, element)] *)
Definition onBeforeRun (wrap : Wrap) (element : ElemRef) : Js unit :=
  modify (with_currentElement (Some element)) ;;
  bootstrapNodeAndPlugins main wrap element "onBeforeRun".

(** [onBeforeRunAsync(wrap, element)] *)
Definition onBeforeRunAsync (wrap : Wrap) (element : ElemRef) : Js unit :=
  modify (with_currentElement (Some element)) ;;
  bootstrapNodeAndPlugins main wrap element "onBeforeRunAsync".

(** [onAfterRun(wrap, element)] *)
Definition onAfterRun (wrap : Wrap) (element : ElemRef) : Js unit :=
  bootstrapNodeAndPlugins main wrap element "onAfterRun".

(** [onAfterRunAsync(wrap, element)] *)
Definition onAfterRunAsync (wrap : Wrap) (element : ElemRef) : Js unit :=
  bootstrapNodeAndPlugins main wrap element "onAfterRunAsync".

(** [onerror(error, element)] of the [define] call. *)
Definition onerror (error : JsError) (element : ElemRef) : Js unit :=
  modify (fun s => with_errors (<[element := error]> (errors s)) s) ;;
  emit (LedgerSet element).

(** *** Turns of the event loop *)

(** A handler is run as one piece: what it awaits inside ([fetch], a plugin
    callback) has settled, as the oracles say, by the time it goes on.  The
    continuations that wait for something another handler does (the wrap of
    a custom element, the fulfilment of [runAsync]) are jobs of the
    microtask queue. *)

Definition exec_job (j : Job) : Js unit :=
  match j with
  | Resume this isAsync wrap => connectedCallback_resume this isAsync wrap
  | ThenDone element => dispatch element TYPE "done"
  | Floating hook name rest =>
      c <- run_plugin rest ;; emit (CbSettle hook name c)
  end.

(** Running the microtask queue.  A job that throws is an unhandled
    rejection: what it did stays, and the queue goes on. *)
Fixpoint drain (fuel : nat) (s : State) : State :=
  match fuel with
  | 0 => s
  | S n =>
      match jobs s with
      | [] => s
      | j :: rest => drain n (fst (exec_job j (with_jobs rest s)))
      end
  end.

(** A [Resume] queues at most one [ThenDone]; the other jobs queue nothing. *)
Definition job_weight (j : Job) : nat :=
  match j with
  | Resume _ _ _ => 2
  | _ => 1
  end.

Definition settle (s : State) : State :=
  drain (sum_list_with job_weight (jobs s)) s.

(** The checkpoints of [hooks.main]. *)
Inductive Checkpoint :=
| OnReady | OnWorker | OnBeforeRun | OnBeforeRunAsync | OnAfterRun | OnAfterRunAsync.


(** Invoking a checkpoint: polyscript calls the entry of [hooks.main]. *)
Definition invoke (c : Checkpoint) (wrap : Wrap) (x : nat) : Js unit :=
  match c with
  | OnReady => onReady wrap x
  | OnWorker => onWorker (Some wrap) x
  | OnBeforeRun => onBeforeRun wrap x
  | OnBeforeRunAsync => onBeforeRunAsync wrap x
  | OnAfterRun => onAfterRun wrap x
  | OnAfterRunAsync => onAfterRunAsync wrap x
  end.

(** What the page and polyscript do to the code of one flavour.  The page
    makes custom elements ([Construct]) and attaches them ([Connect]: the
    browser calls [connectedCallback] on instances of the class only);
    polyscript invokes the checkpoints and reports early errors. *)
Inductive Action :=
| Construct (markup : Elem)
| Connect (this : ElemRef)
| Invoke (c : Checkpoint) (wrap : Wrap) (x : nat)
| Report (error : JsError) (element : ElemRef).

Definition handle (a : Action) : Js unit :=
  match a with
  | Construct markup => construct markup ;; ret tt
  | Connect this =>
      el <- get_elem this ;;
      match _wrap el with
      | Some _ => connectedCallback this
      | None => ret tt
      end
  | Invoke c wrap x => invoke c wrap x
  | Report error element => onerror error element
  end.

(** One task: the handler runs, then the microtasks it left. *)
Definition step (s : State) (a : Action) : State :=
  settle (fst (handle a s)).

Definition run_actions (acts : list Action) (s : State) : State :=
  fold_left step acts s.

(** ** The module level *)

(** [TYPES] of [types.js], [configs] of [config.js], and what
    [xworker.sync] holds when [XWorker] returns. *)
Variable TYPES : list (string * string).
Variable configs : gmap string Config.
Variable xworker_sync : gmap string nat.

(** [await v]: only a promise makes the caller wait. *)
Inductive Awaiting := Continue | Suspend | Reject (e : JsError).

Definition await (v : JsValue) (p : Page) : Awaiting :=
  match v with
  | VPromise q =>
      match promises p !! q with
      | Some Done => Continue
      | Some (Failed e) => Reject e
      | _ => Suspend
      end
  | _ => Continue
  end.

(** [XWorker.call(new Hook(null, hooks), file, options)] *)
Definition XWorker_call (hooks : option nat) (file : string)
  (options : gmap string JsValue) (p : Page) : nat * Page :=
  let w := heap p in
  (w, with_heap (S (S w))
        (with_xworkers (<[w := mkXWorker hooks file options xworker_sync (S w)]>
                          (xworkers p)) p)).

(** How far a call of an [async function] got. *)
Inductive Spawned :=
| Suspended
| Rejected (e : JsError)
| Returned (ready : nat).

(** [async function PyScriptWorker(file, options)] for one entry
    [[TYPE, interpreter]] of [TYPES]; [hooked] is the module's [Map]. *)
Definition PyScriptWorker (type interpreter : string) (hooked : gmap string nat)
  (file : string) (options : option (gmap string JsValue)) (p : Page)
  : Page * Spawned :=
  match configs !! type with
  | None => (p, Rejected (TypeError "configs.get(TYPE) is undefined"))
  | Some cfg =>
      match await (plugins cfg) p with
      | Suspend => (p, Suspended)
      | Reject e => (p, Rejected e)
      | Continue =>
          let '(xworker, p1) :=
            XWorker_call (hooked !! type) file
              (<["type" := VString interpreter]> (default ∅ options)) p in
          let p2 :=
            with_xworkers
              (alter (fun x => mkXWorker (xw_hooks x) (xw_file x) (xw_options x)
                                 (assign (xw_sync x) sync) (xw_ready x))
                 xworker (xworkers p1)) p1 in
          (p2, Returned (default 0 (xw_ready <$> xworkers p2 !! xworker)))
      end
  end.

(** Modelled from the spec: [stickyModule] of the package [sticky-module]
    is missing from the sources.  The spec: check a well-known process-wide
    slot; if absent, create it, populate it with this instance's exports and
    mark "not yet live"; if present, adopt the existing exports. *)
Definition stickyModule (name : string) (value : Exports)
  (slots : gmap string Exports) : (Exports * bool) * gmap string Exports :=
  match slots !! name with
  | Some known => ((known, true), slots)
  | None => ((value, false), <[name := value]> slots)
  end.

Definition setup_event (ev : PageEvent) : M Page unit :=
  modify (fun p => with_setup_log (setup_log p ++ [ev]) p).

(** What [structuredClone] can copy: data, and neither a function nor a
    promise. *)
Definition cloneable (v : JsValue) : bool :=
  match v with
  | VUndefined | VString _ => true
  | VFunction _ | VPromise _ => false
  end.

(** [structuredClone(config)]: a copy, or a [DataCloneError]. *)
Definition structuredClone (c : gmap string JsValue) : M Page (gmap string JsValue) :=
  if forallb (fun kv => cloneable kv.2) (map_to_list c) then ret c
  else throw (mkError "DataCloneError").

(** One iteration of the loop, after the [alreadyLive] guard: the closure
    is made, [plugins().then(...)] is registered unless the config is in
    error, and the config is exported. *)
Definition flavor_setup (type interpreter : string) (exported : Exports)
  : M Page unit :=
  cfg <-
    match configs !! type with
    | Some c => ret c
    | None => throw (TypeError "configs.get(TYPE) is undefined")
    end ;;
  match error cfg with
  | None =>
      match plugins cfg with
      | VFunction q =>
          setup_event (PluginsCall type) ;;
          setup_event (PluginsThen q type interpreter)
      | _ => throw (TypeError "plugins is not a function")
      end
  | Some _ => ret tt
  end ;;
  clone <- structuredClone (config cfg) ;;
  modify (fun p => with_objects
    (<[exportedConfig exported :=
         <[type := clone]> (default ∅ (objects p !! exportedConfig exported))]>
       (objects p)) p).

(** What [plugins().then] runs once the plugins are in: the hook table is
    built and stored, the type defined, the custom element registered. *)
Definition flavor_define (type interpreter : string) (hooked : gmap string nat)
  : M Page (gmap string nat) :=
  hooks <- gets heap ;;
  modify (with_heap (S hooks)) ;;
  setup_event (HookedSet type hooks) ;;
  setup_event (Define type interpreter) ;;
  known <- gets (fun p => bool_decide
    (CustomElementsDefine (type +:+ "-script") ∈ setup_log p)) ;;
  if known then throw (mkError "NotSupportedError")
  else
    setup_event (CustomElementsDefine (type +:+ "-script")) ;;
    ret (<[type := hooks]> hooked).

(** [for (const [TYPE, interpreter] of TYPES) { if (alreadyLive) break; ... }] *)
Fixpoint setup_loop (live : bool) (types : list (string * string))
  (exported : Exports) : M Page unit :=
  match types with
  | [] => ret tt
  | (type, interpreter) :: rest =>
      if live then ret tt
      else
        flavor_setup type interpreter exported ;;
        setup_loop live rest exported
  end.

(** One evaluation of the module. *)
Definition load (imports : Imports) : M Page Instance :=
  base <- gets heap ;;
  let ctors := imap (fun i t => mkCtor (base + i) (fst t) (snd t)) TYPES in
  let own_config := base + length TYPES in
  modify (with_heap (S own_config)) ;;
  slots <- gets global ;;
  let sticky :=
    stickyModule "@pyscript/core"
      (mkExports (ctors !! 0) (ctors !! 1) (imported_hooks imports) own_config
         (imported_whenDefined imports)) slots in
  let exported := fst (fst sticky) in
  let live := snd (fst sticky) in
  modify (with_global (snd sticky)) ;;
  setup_loop live TYPES exported ;;
  ret (mkInstance exported live ∅).

(** * Properties *)

(** ** The monad *)

Lemma bind_ok {S A B} (m : M S A) (k : A -> M S B) s s1 a :
  m s = (s1, Ok a) -> bind m k s = k a s1.
Proof. unfold bind. intros ->. reflexivity. Qed.

Lemma bind_throw {S A B} (m : M S A) (k : A -> M S B) s s1 e :
  m s = (s1, Throw e) -> bind m k s = (s1, Throw e).
Proof. unfold bind. intros ->. reflexivity. Qed.

(** A predicate on states that a computation keeps, however it ends. *)
Definition preserves {S A} (P : S -> Prop) (m : M S A) : Prop :=
  forall s, P s -> P (fst (m s)).

Lemma preserves_ret {S A} (P : S -> Prop) (a : A) : preserves P (ret a).
Proof. intros s H. exact H. Qed.

Lemma preserves_throw {S A} (P : S -> Prop) e : preserves P (@throw S A e).
Proof. intros s H. exact H. Qed.

Lemma preserves_gets {S A} (P : S -> Prop) (f : S -> A) : preserves P (gets f).
Proof. intros s H. exact H. Qed.

Lemma preserves_bind {S A B} (P : S -> Prop) (m : M S A) (k : A -> M S B) :
  preserves P m -> (forall a, preserves P (k a)) -> preserves P (bind m k).
Proof.
  intros Hm Hk s H. unfold bind. specialize (Hm s H).
  destruct (m s) as [s1 [a|e]]; simpl in *; [by apply Hk | done].
Qed.

Lemma preserves_try_catch {S A} (P : S -> Prop) (m : M S A) h :
  preserves P m -> (forall e, preserves P (h e)) -> preserves P (try_catch m h).
Proof.
  intros Hm Hh s H. unfold try_catch. specialize (Hm s H).
  destruct (m s) as [s1 [a|e]]; simpl in *; [done | by apply Hh].
Qed.

Lemma preserves_for_of {S A} (P : S -> Prop) (xs : list A) body :
  (forall x, preserves P (body x)) -> preserves P (for_of xs body).
Proof.
  intros Hb. induction xs as [|x xs IH]; simpl.
  - apply preserves_ret.
  - apply preserves_bind; [apply Hb | intros _; exact IH].
Qed.

Lemma preserves_modify {S} (P : S -> Prop) (f : S -> S) :
  (forall s, P s -> P (f s)) -> preserves P (modify f).
Proof. intros Hf s H. by apply Hf. Qed.

(** ** Source resolution *)

(** What the element holds inline, as [fetchSource] reads it. *)
Definition inline_source (asText : bool) (el : Elem) : string :=
  if asText then dedent (textContent el) else dedent (unescape (innerHTML el)).

(** C6.  For a unit whose element has a [src] attribute and whose fetch
    fails: the request is made once, the failure goes to [io.stderr], and
    [fetchSource] does not throw but returns the inline content of the
    element (warning on the unsafe path), whatever that content is. *)
Theorem fetchSource_falls_back_to_inline
  (tag : ElemRef) (channel : nat) (asText : bool) (s : State) (url : string)
  (failure : JsError) :
  attr_src (elem s tag) = Some url ->
  network url = inl failure ->
  snd (fetchSource tag channel asText s) = Ok (inline_source asText (elem s tag))
  /\ trace (fst (fetchSource tag channel asText s)) =
       trace s ++ [Fetch url; Stderr channel (ErrorObject failure)]
         ++ (if asText then [] else [ConsoleWarn (inline_source asText (elem s tag))])
         ++ [Resolved tag (inline_source asText (elem s tag))].
Proof.
  intros Hsrc Hnet.
  unfold fetchSource, bind, get_elem, gets, try_catch, fetch_text, stderr, emit,
    modify, ret, throw, inline_source.
  rewrite Hsrc. simpl. rewrite Hnet. simpl.
  destruct asText; simpl; (split; [reflexivity|]);
    rewrite <- ?app_assoc; reflexivity.
Qed.

(** ** Keeping a predicate through handlers and microtasks *)

Lemma preserves_run_plugin (P : State -> Prop) f :
  (forall s w, P s -> P (with_pw w s)) -> preserves P (run_plugin f).
Proof. intros H s Hs. unfold run_plugin. simpl. by apply H. Qed.

Lemma drain_preserves (P : State -> Prop) :
  (forall s js, P s -> P (with_jobs js s)) ->
  (forall j, preserves P (exec_job j)) ->
  forall n s, P s -> P (drain n s).
Proof.
  intros Hjobs Hexec n. induction n as [|n IH]; intros s Hs; simpl; [done|].
  destruct (jobs s) as [|j rest] eqn:E; [done|].
  apply IH, Hexec, Hjobs, Hs.
Qed.

Lemma step_preserves (P : State -> Prop) :
  (forall s js, P s -> P (with_jobs js s)) ->
  (forall j, preserves P (exec_job j)) ->
  (forall a, preserves P (handle a)) ->
  forall s a, P s -> P (step s a).
Proof.
  intros Hjobs Hexec Hhandle s a Hs. unfold step, settle.
  apply drain_preserves; [done..|]. by apply Hhandle.
Qed.

Lemma run_actions_preserves (P : State -> Prop) :
  (forall s a, P s -> P (step s a)) ->
  forall acts s, P s -> P (run_actions acts s).
Proof.
  intros Hstep acts. unfold run_actions.
  induction acts as [|a acts IH]; intros s Hs; simpl; [done|].
  apply IH, Hstep, Hs.
Qed.

(** One step of a proof that a composed computation keeps a predicate. *)
Ltac keep_step :=
  lazymatch goal with
  | |- preserves _ (bind _ _) => apply preserves_bind; [| intros ?]
  | |- preserves _ (ret _) => apply preserves_ret
  | |- preserves _ (throw _) => apply preserves_throw
  | |- preserves _ (gets _) => apply preserves_gets
  | |- preserves _ (try_catch _ _) => apply preserves_try_catch; [| intros ?]
  | |- preserves _ (for_of _ _) => apply preserves_for_of; intros ?
  | |- preserves _ (match ?x with _ => _ end) => destruct x
  | |- preserves _ (modify _) => apply preserves_modify; intros ? ?
  | |- preserves _ (run_plugin _) => apply preserves_run_plugin; intros ? ? ?
  end.

(** The computations made of the primitives alone. *)
Ltac open_js :=
  unfold handle, invoke, onReady, onReady_body, onWorker, onBeforeRun, onBeforeRunAsync,
    onAfterRun, onAfterRunAsync, onerror, bootstrapNodeAndPlugins, exec_job,
    connectedCallback, connectedCallback_resume, resolve_wrap, construct,
    display_target, define_target, createElement, head_contains, body_append, after,
    call_awaited, call_dropped, call_run, dispatchDone, module_target,
    fetchSource, fetch_text, read_id, write_id, getID, get_elem, update_elem,
    dispatch, stderr, enqueue, emit.

(** ** Registration of the interpreter-side module *)

Definition is_registration (ev : Event) : bool :=
  match ev with
  | RegisterJsModule _ _ _ => true
  | _ => false
  end.

Definition registrations (tr : list Event) : nat :=
  length (List.filter is_registration tr).

(** The flag accounts for the registrations made so far. *)
Definition registered_once (s : State) : Prop :=
  registrations (trace s) <= (if alreadyRegistered s then 1 else 0).

Lemma registrations_snoc tr ev :
  registrations (tr ++ [ev]) = registrations tr + (if is_registration ev then 1 else 0).
Proof.
  unfold registrations. rewrite List.filter_app, length_app. simpl.
  by destruct (is_registration ev).
Qed.

Lemma registerModule_registered_once wrap : preserves registered_once (registerModule wrap).
Proof.
  intros s H. unfold registered_once in *.
  unfold registerModule, bind, gets, modify, emit, ret. simpl.
  destruct (alreadyRegistered s) eqn:E; simpl.
  - by rewrite E.
  - rewrite registrations_snoc. simpl. lia.
Qed.

Lemma handle_registered_once a : preserves registered_once (handle a).
Proof.
  destruct a as [markup|this|c wrap x|error element]; [| |destruct c|];
    open_js; cbv zeta;
    repeat first
      [ apply registerModule_registered_once
      | keep_step
      | progress (unfold registered_once in *; simpl;
                  rewrite ?registrations_snoc; simpl; rewrite ?Nat.add_0_r)
      | assumption ].
Qed.

Lemma exec_job_registered_once j : preserves registered_once (exec_job j).
Proof.
  destruct j; open_js; cbv zeta;
    repeat first
      [ keep_step
      | progress (unfold registered_once in *; simpl;
                  rewrite ?registrations_snoc; simpl; rewrite ?Nat.add_0_r)
      | assumption ].
Qed.

(** Once the flag is set, nothing registers again. *)
Definition registered_for_good (n : nat) (s : State) : Prop :=
  alreadyRegistered s = true /\ registrations (trace s) = n.

Lemma registerModule_registered_for_good n wrap :
  preserves (registered_for_good n) (registerModule wrap).
Proof.
  intros s [Hflag Hn]. unfold registerModule, bind, gets. simpl.
  rewrite Hflag. simpl. done.
Qed.

Lemma handle_registered_for_good n a : preserves (registered_for_good n) (handle a).
Proof.
  destruct a as [markup|this|c wrap x|error element]; [| |destruct c|];
    open_js; cbv zeta;
    repeat first
      [ apply registerModule_registered_for_good
      | keep_step
      | progress (unfold registered_for_good in *; simpl;
                  rewrite ?registrations_snoc; simpl; rewrite ?Nat.add_0_r)
      | assumption ].
Qed.

Lemma exec_job_registered_for_good n j : preserves (registered_for_good n) (exec_job j).
Proof.
  destruct j; open_js; cbv zeta;
    repeat first
      [ keep_step
      | progress (unfold registered_for_good in *; simpl;
                  rewrite ?registrations_snoc; simpl; rewrite ?Nat.add_0_r)
      | assumption ].
Qed.

Lemma registerModule_sets_flag wrap s :
  alreadyRegistered (fst (registerModule wrap s)) = true.
Proof.
  unfold registerModule, bind, gets, modify, emit, ret. simpl.
  destruct (alreadyRegistered s) eqn:E; simpl; done.
Qed.

Lemma bind_ensures {S A B} (Q : S -> Prop) (m : M S A) (k : A -> M S B) :
  (forall s, Q (fst (m s))) -> (forall a, preserves Q (k a)) ->
  forall s, Q (fst (bind m k s)).
Proof.
  intros Hm Hk s. unfold bind. specialize (Hm s).
  destruct (m s) as [s1 [a|e]]; simpl in *; [by apply Hk | done].
Qed.

Lemma onReady_sets_flag wrap x s :
  alreadyRegistered (fst (onReady wrap x s)) = true.
Proof.
  revert s. unfold onReady.
  apply (bind_ensures (fun s => alreadyRegistered s = true));
    [apply registerModule_sets_flag | intros _].
  open_js; cbv zeta; repeat first [ keep_step | progress simpl | assumption ].
Qed.

(** C10.  From the start of a flavour's closure ([alreadyRegistered] false,
    nothing registered), whatever the page and polyscript do afterwards: the
    [_pyscript] module is registered at most once; every [onReady] leaves the
    flag set; and an [onReady] that finds the flag set registers nothing. *)
Theorem module_registered_at_most_once (s0 : State) (acts : list Action) :
  alreadyRegistered s0 = false ->
  registrations (trace s0) = 0 ->
  registrations (trace (run_actions acts s0)) <= 1
  /\ (forall wrap x,
        alreadyRegistered (step (run_actions acts s0) (Invoke OnReady wrap x)) = true)
  /\ (forall s wrap x,
        alreadyRegistered s = true ->
        registrations (trace (step s (Invoke OnReady wrap x))) = registrations (trace s)).
Proof.
  intros Hflag Hnone. split; [|split].
  - assert (registered_once (run_actions acts s0)) as H.
    { apply run_actions_preserves.
      - intros s a. apply step_preserves; [done | apply exec_job_registered_once
                                          | apply handle_registered_once].
      - unfold registered_once. rewrite Hflag, Hnone. done. }
    unfold registered_once in H.
    destruct (alreadyRegistered (run_actions acts s0)); lia.
  - intros wrap x. set (s := run_actions acts s0). unfold step, settle.
    apply (drain_preserves (fun s => alreadyRegistered s = true)); [done| |].
    + intros j. destruct j; open_js; cbv zeta;
        repeat first [ keep_step | progress simpl | assumption ].
    + apply onReady_sets_flag.
  - intros s wrap x Hs.
    assert (registered_for_good (registrations (trace s)) (step s (Invoke OnReady wrap x)))
      as [_ H]; [|done].
    apply step_preserves; [done | apply exec_job_registered_for_good
                          | apply handle_registered_for_good | done].
Qed.

(** ** Plugin callbacks at a checkpoint *)

Definition is_cb (ev : Event) : bool :=
  match ev with
  | CbCall _ _ | CbSettle _ _ _ => true
  | _ => false
  end.



























(** ** The life of one unit *)

(** The events of a unit's life cycle. *)
Definition about (e : ElemRef) (ev : Event) : bool :=
  match ev with
  | Dispatch x _ _ | Resolved x _ | Run x _ _ _ | Attached x => bool_decide (x = e)
  | _ => false
  end.

Definition lifecycle (e : ElemRef) (tr : list Event) : list Event :=
  List.filter (about e) tr.

(** The times a pending error of the unit was taken from the ledger. *)
Definition is_consumption (e : ElemRef) (ev : Event) : bool :=
  match ev with
  | LedgerDelete x => bool_decide (x = e)
  | _ => false
  end.

Definition consumptions (e : ElemRef) (tr : list Event) : list Event :=
  List.filter (is_consumption e) tr.

(** The unit a queued job belongs to. *)
Definition job_unit (j : Job) : option ElemRef :=
  match j with
  | Resume this _ _ => Some this
  | ThenDone element => Some element
  | Floating _ _ _ => None
  end.

(** References are given out in order: none at or past [fresh] is in use. *)
Definition allocated (s : State) : Prop :=
  forall r : ElemRef, fresh s <= r -> nodes s !! r = None.

(** What the rest of the page cannot change about a unit: its life so far,
    the consumptions of its errors, and the fields of its element that the
    custom element class owns. *)
Record View := mkView {
  v_life : list Event;
  v_consumed : list Event;
  v_wrap : option WrapSlot;
  v_executed : bool;
  v_tag : string;
}.

Definition framed (e : ElemRef) (v : View) (s : State) : Prop :=
  allocated s
  /\ lifecycle e (trace s) = v_life v
  /\ consumptions e (trace s) = v_consumed v
  /\ (exists el, nodes s !! e = Some el /\ _wrap el = v_wrap v
                 /\ executed el = v_executed v /\ tagName el = v_tag v)
  /\ Forall (fun j => job_unit j <> Some e) (jobs s).

Lemma lifecycle_app e tr1 tr2 :
  lifecycle e (tr1 ++ tr2) = lifecycle e tr1 ++ lifecycle e tr2.
Proof. apply List.filter_app. Qed.

Lemma consumptions_app e tr1 tr2 :
  consumptions e (tr1 ++ tr2) = consumptions e tr1 ++ consumptions e tr2.
Proof. apply List.filter_app. Qed.

Lemma framed_emit e v ev :
  about e ev = false -> is_consumption e ev = false -> preserves (framed e v) (emit ev).
Proof.
  intros Ha Hc s (Hal & Hlife & Hcons & Hel & Hjobs). unfold emit, modify. simpl.
  split; [exact Hal|]. split; [|split; [|split; [exact Hel | exact Hjobs]]]; simpl.
  - rewrite lifecycle_app. simpl. rewrite Ha. by rewrite app_nil_r.
  - rewrite consumptions_app. simpl. rewrite Hc. by rewrite app_nil_r.
Qed.

Lemma framed_enqueue e v j :
  job_unit j <> Some e -> preserves (framed e v) (enqueue j).
Proof.
  intros Hj s (Hal & Hlife & Hcons & Hel & Hjobs). unfold enqueue, modify. simpl.
  split; [exact Hal|]. do 3 (split; [done|]). simpl.
  apply Forall_app. split; [done|]. by constructor.
Qed.

(** A write that leaves the fields of the class alone. *)
Definition harmless (f : Elem -> Elem) : Prop :=
  forall el, _wrap (f el) = _wrap el /\ executed (f el) = executed el
             /\ tagName (f el) = tagName el.

Lemma framed_update e v r f :
  r <> e \/ harmless f -> preserves (framed e v) (update_elem r f).
Proof.
  intros Hr s (Hal & Hlife & Hcons & (el & Hel & Hw & Hx & Ht) & Hjobs).
  unfold update_elem, modify. simpl.
  split; [|split; [done|split; [done|split; [|done]]]].
  - intros r' Hr'. simpl. rewrite lookup_alter. case_decide; [|by apply Hal].
    subst r'. rewrite (Hal r Hr'). done.
  - simpl. destruct (decide (r = e)) as [->|Hne].
    + destruct Hr as [?|Hf]; [done|]. exists (f el).
      rewrite lookup_alter_eq, Hel. destruct (Hf el) as (-> & -> & ->). done.
    + exists el. by rewrite lookup_alter_ne.
Qed.

Lemma framed_alloc e v (el0 : Elem) :
  preserves (framed e v)
    (modify (fun s => with_fresh (S (fresh s))
                        (with_nodes (<[fresh s := el0]> (nodes s)) s))).
Proof.
  intros s (Hal & Hlife & Hcons & (el & Hel & Hw & Hx & Ht) & Hjobs).
  unfold modify. simpl.
  split; [|split; [done|split; [done|split; [|done]]]].
  - intros r Hr. simpl in *. rewrite lookup_insert_ne by lia. apply Hal. lia.
  - simpl. exists el. rewrite lookup_insert_ne; [done|].
    intros Heq. rewrite (Hal e) in Hel by lia. done.
Qed.

Lemma framed_createElement e v tag : preserves (framed e v) (createElement tag).
Proof.
  intros s H. pose proof (framed_alloc e v (blank tag) s H) as H'.
  unfold createElement, bind, gets, modify, ret in *. simpl in *. exact H'.
Qed.

Lemma framed_construct e v markup : preserves (framed e v) (construct markup).
Proof.
  intros s H.
  pose proof (framed_alloc e v
    (set_executed false (set_srcCode "" (set_wrap (Some (Awaited [])) markup))) s H) as H'.
  unfold construct, bind, gets, modify, ret in *. simpl in *. exact H'.
Qed.

Lemma harmless_set_dom_id v : harmless (set_dom_id v).
Proof. by intros el. Qed.

Lemma harmless_set_target v : harmless (set_target v).
Proof. by intros el. Qed.

Lemma harmless_set_srcCode v : harmless (set_srcCode v).
Proof. by intros el. Qed.

Lemma harmless_set_display v : harmless (set_display v).
Proof. by intros el. Qed.

Lemma harmless_replaceChildren : harmless replaceChildren.
Proof. by intros el. Qed.

(** The computations made of [emit], [enqueue], [update_elem], allocation
    and plain assignments. *)
Ltac open_composites :=
  unfold handle, invoke, onReady, onReady_body, onWorker, onBeforeRun,
    onBeforeRunAsync, onAfterRun, onAfterRunAsync, onerror,
    bootstrapNodeAndPlugins, exec_job, connectedCallback,
    connectedCallback_resume, resolve_wrap, display_target, define_target,
    head_contains,
    body_append, after, call_awaited, call_dropped, call_run, dispatchDone,
    module_target, registerModule, fetchSource, fetch_text, read_id, write_id,
    getID, get_elem, dispatch, stderr.

Ltac frame_leaf :=
  first
    [ apply framed_emit; simpl; rewrite ?bool_decide_eq_false_2 by done; reflexivity
    | apply framed_enqueue; simpl; congruence
    | apply framed_update;
      first [ left; done
            | right; first [ apply harmless_set_dom_id | apply harmless_set_target
                           | apply harmless_set_srcCode | apply harmless_set_display
                           | apply harmless_replaceChildren ] ]
    | apply framed_createElement
    | apply framed_construct ].

Ltac frame := open_composites; cbv zeta; repeat first [ frame_leaf | keep_step | assumption ].

(** Who acts on a unit: its own [connectedCallback] and its own [onReady]. *)
Definition touches (e : ElemRef) (a : Action) : Prop :=
  match a with
  | Connect this => this = e
  | Invoke OnReady _ x => x = e
  | _ => False
  end.

Lemma handle_framed e v a : ~ touches e a -> preserves (framed e v) (handle a).
Proof.
  destruct a as [markup|this|c wrap x|error element]; [| |destruct c|];
    simpl; intros Hx; frame.
Qed.

Lemma exec_job_framed e v j : job_unit j <> Some e -> preserves (framed e v) (exec_job j).
Proof.
  destruct j as [this isAsync wrap|element|hook name rest]; simpl; intros Hj;
    [assert (this <> e) by congruence | assert (element <> e) by congruence |];
    frame.
Qed.

Lemma drain_keeps (P : State -> Prop) :
  (forall s j rest, P s -> jobs s = j :: rest ->
                    P (fst (exec_job j (with_jobs rest s)))) ->
  forall n s, P s -> P (drain n s).
Proof.
  intros Hexec n. induction n as [|n IH]; intros s Hs; simpl; [done|].
  destruct (jobs s) as [|j rest] eqn:E; [done|].
  by apply IH, Hexec.
Qed.

Lemma drain_framed e v n s : framed e v s -> framed e v (drain n s).
Proof.
  apply drain_keeps. clear s. intros s j rest (Hal & Hlife & Hcons & Hel & Hjobs) E.
  rewrite E in Hjobs. apply Forall_cons in Hjobs as [Hj Hrest].
  apply exec_job_framed; [done|]. by repeat split.
Qed.

(** Whatever does not act on the unit leaves its view as it was. *)
Lemma step_framed e v s a : ~ touches e a -> framed e v s -> framed e v (step s a).
Proof.
  intros Ha Hs. unfold step, settle. apply drain_framed. by apply handle_framed.
Qed.

(** ** Equations for the helpers *)

(** The code [fetchSource] resolves to, and what it leaves in the trace
    before that. *)
Definition source_of (asText : bool) (el : Elem) : string :=
  match attr_src el with
  | Some url =>
      match network url with
      | inr text => text
      | inl _ => inline_source asText el
      end
  | None => inline_source asText el
  end.

Definition inline_trace (asText : bool) (el : Elem) : list Event :=
  if asText then [] else [ConsoleWarn (inline_source asText el)].

Definition fetch_trace (channel : nat) (asText : bool) (el : Elem) : list Event :=
  match attr_src el with
  | Some url =>
      match network url with
      | inr _ => [Fetch url]
      | inl failure =>
          [Fetch url; Stderr channel (ErrorObject failure)] ++ inline_trace asText el
      end
  | None => inline_trace asText el
  end.

Lemma fetchSource_eq tag channel asText s :
  fetchSource tag channel asText s
  = (with_trace (trace s ++ fetch_trace channel asText (elem s tag)
                   ++ [Resolved tag (source_of asText (elem s tag))]) s,
     Ok (source_of asText (elem s tag))).
Proof.
  unfold fetchSource, bind, get_elem, gets, try_catch, fetch_text, stderr, emit,
    modify, ret, throw, source_of, fetch_trace, inline_trace, inline_source.
  destruct (attr_src (elem s tag)) as [url|]; simpl.
  - destruct (network url) as [failure|text]; simpl.
    + destruct asText; simpl; unfold with_trace; simpl;
        rewrite <- ?app_assoc; reflexivity.
    + unfold with_trace; simpl; rewrite <- ?app_assoc; reflexivity.
  - destruct asText; simpl; unfold with_trace; simpl;
      rewrite <- ?app_assoc, ?app_nil_r; reflexivity.
Qed.

Lemma call_run_eq wrap element isAsync code s :
  call_run wrap element isAsync code s
  = (with_trace (trace s ++ [Run element isAsync code (run_outcome wrap isAsync code)]) s,
     if isAsync then Ok (run_outcome wrap isAsync code)
     else match run_outcome wrap isAsync code with
          | Failed e => Throw e
          | r => Ok r
          end).
Proof.
  unfold call_run, bind, emit, modify, ret, throw. simpl.
  destruct isAsync; [reflexivity|].
  destruct (run_outcome wrap false code); reflexivity.
Qed.

Lemma fetch_trace_lifecycle e channel asText el :
  lifecycle e (fetch_trace channel asText el) = [].
Proof.
  unfold fetch_trace, inline_trace.
  destruct (attr_src el); [destruct (network _)|]; destruct asText; reflexivity.
Qed.

Lemma fetch_trace_consumptions e channel asText el :
  consumptions e (fetch_trace channel asText el) = [].
Proof.
  unfold fetch_trace, inline_trace.
  destruct (attr_src el); [destruct (network _)|]; destruct asText; reflexivity.
Qed.

Lemma elem_lookup s r el : nodes s !! r = Some el -> elem s r = el.
Proof. unfold elem. by intros ->. Qed.

(** What the rest of [connectedCallback] adds to the trace after the
    source is in: the dispatch of "ready", the run, and for a synchronous
    run that returned the dispatch of "done". *)
Definition run_trace (wrap : Wrap) (this : ElemRef) (isAsync : bool) (code : string)
  : list Event :=
  [Dispatch this TYPE "ready";
   Run this isAsync code (run_outcome wrap isAsync code)]
  ++ (if isAsync then []
      else match run_outcome wrap isAsync code with
           | Done => [Dispatch this TYPE "done"]
           | _ => []
           end).

(** The reaction an asynchronous run that fulfils leaves in the queue. *)
Definition run_jobs (wrap : Wrap) (this : ElemRef) (isAsync : bool) (code : string)
  : list Job :=
  if isAsync then
    match run_outcome wrap isAsync code with
    | Done => [ThenDone this]
    | _ => []
    end
  else [].

Lemma run_and_dispatch_eq wrap this isAsync code s :
  let r := fst ((dispatch this TYPE "ready" ;;
                 result <- call_run wrap this isAsync code ;;
                 dispatchDone this isAsync result) s) in
  trace r = trace s ++ run_trace wrap this isAsync code
  /\ jobs r = jobs s ++ run_jobs wrap this isAsync code
  /\ nodes r = nodes s /\ fresh r = fresh s /\ errors r = errors s.
Proof.
  unfold bind at 1. unfold dispatch at 1, emit at 1, modify at 1. simpl.
  unfold bind. rewrite call_run_eq.
  unfold run_trace, run_jobs, dispatchDone, run_outcome.
  destruct isAsync; [destruct (runAsync wrap code) | destruct (run wrap code)];
    unfold enqueue, dispatch, emit, modify, ret; simpl;
    rewrite <- ?app_assoc, ?app_nil_r; done.
Qed.

Lemma connectedCallback_resume_eq this isAsync wrap s :
  let el := elem s this in
  let asText := bool_decide (childElementCount el = 0) in
  let code := source_of asText el in
  let r := fst (connectedCallback_resume this isAsync wrap s) in
  trace r = trace s ++ fetch_trace (io wrap) asText el ++ [Resolved this code]
              ++ run_trace wrap this isAsync code
  /\ jobs r = jobs s ++ run_jobs wrap this isAsync code
  /\ nodes r = alter (set_display "block") this
                 (alter replaceChildren this
                    (alter (set_srcCode code) this (nodes s)))
  /\ fresh r = fresh s /\ errors r = errors s.
Proof.
  cbv zeta.
  unfold connectedCallback_resume, bind, get_elem, gets, update_elem, modify.
  rewrite fetchSource_eq. simpl. unfold dispatch, emit, modify. simpl.
  rewrite call_run_eq. simpl.
  unfold run_trace, run_jobs, dispatchDone, run_outcome.
  destruct isAsync; [destruct (runAsync wrap _) | destruct (run wrap _)];
    unfold enqueue, dispatch, emit, modify, ret; simpl;
    rewrite <- ?app_assoc, ?app_nil_r; simpl; done.
Qed.

(** ** The microtask queue runs dry *)

Definition queue_weight (js : list Job) : nat := sum_list_with job_weight js.

Lemma queue_weight_app js1 js2 :
  queue_weight (js1 ++ js2) = queue_weight js1 + queue_weight js2.
Proof. apply sum_list_with_app. Qed.

Lemma run_jobs_weight wrap this isAsync code :
  queue_weight (run_jobs wrap this isAsync code) <= 1.
Proof.
  unfold run_jobs. destruct isAsync; [destruct (run_outcome _ _ _)|];
    unfold queue_weight; simpl; lia.
Qed.

Lemma exec_job_weight j s :
  queue_weight (jobs (fst (exec_job j s))) + 1 <= queue_weight (jobs s) + job_weight j.
Proof.
  destruct j as [this isAsync wrap|element|hook name rest]; simpl.
  - destruct (connectedCallback_resume_eq this isAsync wrap s) as (_ & -> & _).
    rewrite queue_weight_app.
    pose proof (run_jobs_weight wrap this isAsync
      (source_of (bool_decide (childElementCount (elem s this) = 0)) (elem s this))).
    lia.
  - unfold dispatch, emit, modify. simpl. lia.
  - unfold bind, run_plugin, emit, modify. simpl. lia.
Qed.

Lemma drain_quiescent n s : queue_weight (jobs s) <= n -> jobs (drain n s) = [].
Proof.
  revert s. induction n as [|n IH]; intros s Hw; simpl.
  - destruct (jobs s) as [|j rest]; [done|].
    unfold queue_weight in Hw. simpl in Hw. destruct j; simpl in Hw; lia.
  - destruct (jobs s) as [|j rest] eqn:E; [done|].
    apply IH. pose proof (exec_job_weight j (with_jobs rest s)) as H.
    simpl in H. unfold queue_weight in Hw, H |- *. simpl in Hw. lia.
Qed.

(** After a task no microtask is left: the fuel [settle] gives suffices. *)
Lemma settle_quiescent s : jobs (settle s) = [].
Proof. unfold settle. by apply drain_quiescent. Qed.

Lemma step_quiescent s a : jobs (step s a) = [].
Proof. apply settle_quiescent. Qed.

Lemma settle_idle s : jobs s = [] -> settle s = s.
Proof. unfold settle. intros ->. reflexivity. Qed.

(** ** [onReady] up to the ledger check *)

(** Registration and plugin callbacks change the flag, the plugins' state
    and the trace, and nothing else. *)
Definition same_core (s s1 : State) : Prop :=
  id_counter s1 = id_counter s /\ currentElement s1 = currentElement s
  /\ errors s1 = errors s /\ nodes s1 = nodes s /\ fresh s1 = fresh s
  /\ doc_head s1 = doc_head s /\ doc_body s1 = doc_body s
  /\ sync_of s1 = sync_of s /\ jobs s1 = jobs s.

Definition plugin_event (ev : Event) : bool := is_registration ev || is_cb ev.

Definition plugins_ran (s s1 : State) : Prop :=
  same_core s s1
  /\ exists pre, trace s1 = trace s ++ pre /\ Forall (fun ev => plugin_event ev = true) pre.

Lemma plugins_ran_refl s : plugins_ran s s.
Proof.
  split; [by repeat split|]. exists []. by rewrite app_nil_r.
Qed.

Lemma plugins_ran_trans s s1 s2 : plugins_ran s s1 -> plugins_ran s1 s2 -> plugins_ran s s2.
Proof.
  intros [Hc (pre & Ht & Hp)] [Hc' (pre' & Ht' & Hp')]. split.
  - unfold same_core in *.
    destruct Hc as (?&?&?&?&?&?&?&?&?), Hc' as (?&?&?&?&?&?&?&?&?).
    repeat split; congruence.
  - exists (pre ++ pre'). rewrite Ht', Ht, app_assoc. split; [done|].
    by apply Forall_app.
Qed.

Lemma registerModule_plugins_ran wrap s : plugins_ran s (fst (registerModule wrap s)).
Proof.
  unfold registerModule, bind, gets, modify, emit, ret. simpl.
  destruct (alreadyRegistered s); simpl.
  - apply plugins_ran_refl.
  - split; [by repeat split|]. eexists [_]. simpl. split; [done|].
    by repeat constructor.
Qed.

Lemma registerModule_ok wrap s : snd (registerModule wrap s) = Ok tt.
Proof.
  unfold registerModule, bind, gets, modify, emit, ret. simpl.
  by destruct (alreadyRegistered s).
Qed.

Lemma call_awaited_plugins_ran hook a b cb s :
  plugins_ran s (fst (call_awaited hook a b cb s)).
Proof.
  unfold call_awaited, bind, emit, modify, run_plugin, ret, throw.
  destruct cb as [name body|name pre post]; simpl.
  - destruct (body a b (pw s)) as [w [|e]]; simpl;
      (split; [by repeat split|]); eexists [_; _]; rewrite <- app_assoc;
      (split; [done|]); by repeat constructor.
  - destruct (post a b (pre a b (pw s))) as [w [|e]]; simpl;
      (split; [by repeat split|]); eexists [_; _]; rewrite <- app_assoc;
      (split; [done|]); by repeat constructor.
Qed.

Lemma awaited_loop_plugins_ran hook a b cbs s :
  plugins_ran s (fst (for_of cbs (call_awaited hook a b) s)).
Proof.
  revert s. induction cbs as [|cb cbs IH]; intros s; simpl.
  - apply plugins_ran_refl.
  - unfold bind. pose proof (call_awaited_plugins_ran hook a b cb s) as H.
    destruct (call_awaited hook a b cb s) as [s1 [[]|e]]; simpl in *; [|done].
    eapply plugins_ran_trans; [exact H | apply IH].
Qed.

(** [onReady] either ends at a plugin callback that threw, or goes on with
    its body from a state that differs from the first in what registration
    and plugins did. *)
Lemma onReady_split wrap x s :
  exists s1, plugins_ran s s1
    /\ ((exists err, onReady wrap x s = (s1, Throw err))
        \/ onReady wrap x s = onReady_body wrap x s1).
Proof.
  unfold onReady.
  pose proof (registerModule_plugins_ran wrap s) as H0.
  pose proof (registerModule_ok wrap s) as Hok.
  destruct (registerModule wrap s) as [s0 r0] eqn:E0. simpl in H0, Hok. subst r0.
  rewrite (bind_ok _ _ _ _ _ E0).
  pose proof (awaited_loop_plugins_ran "onReady" (Some wrap) x (main "onReady") s0) as H1.
  destruct (for_of (main "onReady") (call_awaited "onReady" (Some wrap) x) s0)
    as [s1 [[]|err]] eqn:E1; simpl in H1.
  - rewrite (bind_ok _ _ _ _ _ E1).
    exists s1. split; [by eapply plugins_ran_trans|]. by right.
  - rewrite (bind_throw _ _ _ _ _ E1).
    exists s1. split; [by eapply plugins_ran_trans|]. left. by exists err.
Qed.

Lemma plugin_events_lifecycle e pre :
  Forall (fun ev => plugin_event ev = true) pre -> lifecycle e pre = [].
Proof.
  unfold lifecycle. induction 1 as [|ev pre Hev _ IH]; [done|].
  destruct ev; simpl in *; done.
Qed.

Lemma plugin_events_consumptions e pre :
  Forall (fun ev => plugin_event ev = true) pre -> consumptions e pre = [].
Proof.
  unfold consumptions. induction 1 as [|ev pre Hev _ IH]; [done|].
  destruct ev; simpl in *; done.
Qed.

Lemma plugins_ran_lifecycle e s s1 :
  plugins_ran s s1 -> lifecycle e (trace s1) = lifecycle e (trace s).
Proof.
  intros [_ (pre & -> & Hp)].
  by rewrite lifecycle_app, (plugin_events_lifecycle _ _ Hp), app_nil_r.
Qed.

Lemma plugins_ran_consumptions e s s1 :
  plugins_ran s s1 -> consumptions e (trace s1) = consumptions e (trace s).
Proof.
  intros [_ (pre & -> & Hp)].
  by rewrite consumptions_app, (plugin_events_consumptions _ _ Hp), app_nil_r.
Qed.

(** ** A microtask queue holding one resumed [connectedCallback] *)

(** The dispatch of "done" for a run that returned or fulfilled. *)
Definition done_trace (wrap : Wrap) (e : ElemRef) (isAsync : bool) (code : string)
  : list Event :=
  match run_outcome wrap isAsync code with
  | Done => [Dispatch e TYPE "done"]
  | _ => []
  end.

Lemma drain_cons n s j rest :
  jobs s = j :: rest -> drain (S n) s = drain n (fst (exec_job j (with_jobs rest s))).
Proof. simpl. by intros ->. Qed.

Lemma drain_nil n s : jobs s = [] -> drain n s = s.
Proof. destruct n; simpl; [done|]. by intros ->. Qed.

Lemma settle_resume e isAsync wrap s :
  jobs s = [Resume e isAsync wrap] ->
  let el := elem s e in
  let asText := bool_decide (childElementCount el = 0) in
  let code := source_of asText el in
  trace (settle s)
  = trace s ++ fetch_trace (io wrap) asText el
      ++ [Resolved e code; Dispatch e TYPE "ready";
          Run e isAsync code (run_outcome wrap isAsync code)]
      ++ done_trace wrap e isAsync code
  /\ nodes (settle s)
     = alter (set_display "block") e
         (alter replaceChildren e (alter (set_srcCode code) e (nodes s)))
  /\ fresh (settle s) = fresh s
  /\ errors (settle s) = errors s
  /\ jobs (settle s) = [].
Proof.
  intros Hjobs. cbv zeta. unfold settle. rewrite Hjobs.
  change (sum_list_with job_weight [Resume e isAsync wrap]) with 2.
  rewrite (drain_cons _ _ _ _ Hjobs).
  destruct (connectedCallback_resume_eq e isAsync wrap (with_jobs [] s))
    as (Ht & Hj & Hn & Hf & He).
  cbv zeta in Ht, Hj, Hn, Hf, He.
  change (elem (with_jobs [] s) e) with (elem s e) in *.
  change (trace (with_jobs [] s)) with (trace s) in *.
  change (nodes (with_jobs [] s)) with (nodes s) in *.
  change (fresh (with_jobs [] s)) with (fresh s) in *.
  change (errors (with_jobs [] s)) with (errors s) in *.
  change (jobs (with_jobs [] s)) with (@nil Job) in *.
  unfold exec_job.
  set (code := source_of (bool_decide (childElementCount (elem s e) = 0)) (elem s e)) in *.
  set (s3 := fst (connectedCallback_resume e isAsync wrap (with_jobs [] s))) in *.
  unfold run_jobs in Hj. unfold run_trace in Ht. unfold done_trace.
  simpl in Hj.
  destruct isAsync.
  - destruct (run_outcome wrap true code).
    + rewrite (drain_cons _ _ _ _ Hj). rewrite drain_nil by done.
      unfold exec_job, dispatch, emit, modify. simpl. rewrite Ht, Hn, Hf, He.
      rewrite <- ?app_assoc. simpl. done.
    + rewrite drain_nil by done. rewrite Ht, Hn, Hf, He, Hj.
      rewrite <- ?app_assoc. simpl. done.
    + rewrite drain_nil by done. rewrite Ht, Hn, Hf, He, Hj.
      rewrite <- ?app_assoc. simpl. done.
  - rewrite drain_nil by done. rewrite Ht, Hn, Hf, He, Hj.
    destruct (run_outcome wrap false code); rewrite <- ?app_assoc; simpl; done.
Qed.

(** ** The stages of a custom element *)

Inductive Stage :=
| Idle
| Parked (isAsync : bool)
| Ran (wrap : Wrap) (isAsync : bool) (code : string).

(** The whole life of a custom element that ran. *)
Definition custom_life (wrap : Wrap) (e : ElemRef) (isAsync : bool) (code : string)
  : list Event :=
  [Attached e; Resolved e code; Dispatch e TYPE "ready";
   Run e isAsync code (run_outcome wrap isAsync code)]
  ++ done_trace wrap e isAsync code.

(** [Idle]: not attached, the wrap awaited by no one or already delivered.
    [Parked]: attached, its one continuation waiting for the wrap.
    [Ran]: the wrap delivered and the continuation run to its end. *)
Definition stage_of (e : ElemRef) (st : Stage) (el : Elem) (life : list Event) : Prop :=
  match st with
  | Idle =>
      executed el = false
      /\ (_wrap el = Some (Awaited []) \/ exists w, _wrap el = Some (Settled w))
      /\ life = []
  | Parked a =>
      executed el = true /\ _wrap el = Some (Awaited [a]) /\ life = [Attached e]
  | Ran w a code =>
      executed el = true /\ _wrap el = Some (Settled w)
      /\ life = custom_life w e a code
  end.

Definition custom_unit (e : ElemRef) (st : Stage) (s : State) : Prop :=
  allocated s /\ jobs s = []
  /\ exists el, nodes s !! e = Some el /\ isScript el = false
                /\ stage_of e st el (lifecycle e (trace s)).

Lemma custom_unit_framed e st s a :
  ~ touches e a -> custom_unit e st s ->
  custom_unit e st (step s a)
  /\ consumptions e (trace (step s a)) = consumptions e (trace s)
  /\ _wrap (elem (step s a) e) = _wrap (elem s e).
Proof.
  intros Ha (Hal & Hjobs & el & Hel & Hscript & Hst).
  assert (framed e (mkView (lifecycle e (trace s)) (consumptions e (trace s))
                      (_wrap el) (executed el) (tagName el)) s) as Hf.
  { split; [done|]. do 2 (split; [done|]). split; [by exists el|].
    rewrite Hjobs. constructor. }
  apply (step_framed _ _ _ a Ha) in Hf.
  destruct Hf as (Hal' & Hlife' & Hcons' & (el' & Hel' & Hw' & Hx' & Ht') & _).
  simpl in *. split; [|split; [done|]].
  - split; [done|]. split; [apply step_quiescent|]. exists el'.
    split; [done|]. split.
    + unfold isScript in *. by rewrite Ht'.
    + rewrite Hlife'. destruct st; simpl in *; rewrite Hw', Hx'; done.
  - by rewrite (elem_lookup _ _ _ Hel), (elem_lookup _ _ _ Hel').
Qed.

Lemma allocated_alter s r f : allocated s -> allocated (with_nodes (alter f r (nodes s)) s).
Proof.
  intros Hal r' Hr'. simpl in *. rewrite lookup_alter. case_decide; [|by apply Hal].
  subst r'. by rewrite (Hal r Hr').
Qed.

Lemma connect_idle_awaited e s el :
  jobs s = [] -> nodes s !! e = Some el -> executed el = false ->
  _wrap el = Some (Awaited []) ->
  step s (Connect e)
  = with_nodes
      (alter (set_wrap (Some (Awaited [negb (isSync el)]))) e
         (alter (set_executed true) e (nodes s)))
      (with_trace (trace s ++ [Attached e]) s).
Proof.
  intros Hjobs Hel Hx Hw. unfold step, handle.
  unfold bind at 1. unfold get_elem at 1, gets at 1. cbv beta iota.
  rewrite (elem_lookup _ _ _ Hel), Hw.
  unfold connectedCallback, bind, get_elem, gets, update_elem, emit, modify.
  rewrite (elem_lookup _ _ _ Hel), Hx, Hw. simpl.
  rewrite settle_idle by done. reflexivity.
Qed.

Lemma connect_executed e s el :
  jobs s = [] -> nodes s !! e = Some el -> executed el = true ->
  step s (Connect e) = s.
Proof.
  intros Hjobs Hel Hx. unfold step, handle.
  unfold bind at 1. unfold get_elem at 1, gets at 1. cbv beta iota.
  rewrite (elem_lookup _ _ _ Hel).
  destruct (_wrap el); [|by rewrite settle_idle].
  unfold connectedCallback, bind, get_elem, gets.
  rewrite (elem_lookup _ _ _ Hel), Hx. simpl. by rewrite settle_idle.
Qed.

Lemma lifecycle_done_trace wrap e isAsync code :
  lifecycle e (done_trace wrap e isAsync code) = done_trace wrap e isAsync code.
Proof.
  unfold done_trace. destruct (run_outcome wrap isAsync code); simpl; [|done..].
  by rewrite bool_decide_eq_true_2.
Qed.

Lemma consumptions_done_trace wrap e isAsync code :
  consumptions e (done_trace wrap e isAsync code) = [].
Proof. unfold done_trace. by destruct (run_outcome wrap isAsync code). Qed.

Lemma connect_idle_settled e s el wrap :
  allocated s -> jobs s = [] -> nodes s !! e = Some el -> isScript el = false ->
  executed el = false -> _wrap el = Some (Settled wrap) ->
  lifecycle e (trace s) = [] ->
  exists code,
    custom_unit e (Ran wrap (negb (isSync el)) code) (step s (Connect e))
    /\ consumptions e (trace (step s (Connect e))) = consumptions e (trace s)
    /\ errors (step s (Connect e)) = errors s.
Proof.
  intros Hal Hjobs Hel Hscript Hx Hw Hlife.
  set (s2 := with_jobs [Resume e (negb (isSync el)) wrap]
               (with_trace (trace s ++ [Attached e])
                  (with_nodes (alter (set_executed true) e (nodes s)) s))).
  assert (step s (Connect e) = settle s2) as ->.
  { unfold step, handle.
    unfold bind at 1. unfold get_elem at 1, gets at 1. cbv beta iota.
    rewrite (elem_lookup _ _ _ Hel), Hw.
    unfold connectedCallback, bind, get_elem, gets, update_elem, emit, enqueue, modify.
    rewrite (elem_lookup _ _ _ Hel), Hx, Hw. simpl. rewrite Hjobs. reflexivity. }
  destruct (settle_resume e (negb (isSync el)) wrap s2 eq_refl)
    as (Ht & Hn & Hf & He & Hj).
  cbv zeta in Ht, Hn.
  assert (nodes s2 !! e = Some (set_executed true el)) as Hel2.
  { simpl. by rewrite lookup_alter_eq, Hel. }
  rewrite (elem_lookup _ _ _ Hel2) in Ht, Hn.
  set (asText := bool_decide (childElementCount (set_executed true el) = 0)) in *.
  set (code := source_of asText (set_executed true el)) in *.
  exists code. split; [|split].
  - split; [|split; [done|]].
    + intros r Hr. rewrite Hn. rewrite !lookup_alter_None. simpl.
      rewrite lookup_alter_None. apply Hal. by rewrite Hf in Hr.
    + eexists. split; [|split].
      * rewrite Hn. rewrite !lookup_alter_eq, Hel2. reflexivity.
      * done.
      * simpl. split; [done|]. split; [done|].
        rewrite Ht. simpl trace. rewrite !lifecycle_app, Hlife.
        rewrite fetch_trace_lifecycle, lifecycle_done_trace. simpl.
        rewrite !bool_decide_eq_true_2 by done. reflexivity.
  - rewrite Ht. simpl trace. rewrite !consumptions_app.
    rewrite fetch_trace_consumptions, consumptions_done_trace. simpl.
    by rewrite !app_nil_r.
  - by rewrite He.
Qed.

(** Attaching a custom element: a first time it parks on the wrap or runs;
    any later time nothing happens. *)
Lemma connect_custom e st s :
  custom_unit e st s ->
  consumptions e (trace (step s (Connect e))) = consumptions e (trace s)
  /\ errors (step s (Connect e)) = errors s
  /\ match st with
     | Idle =>
         (_wrap (elem s e) = Some (Awaited [])
          /\ exists a, custom_unit e (Parked a) (step s (Connect e)))
         \/ (exists w a code, _wrap (elem s e) = Some (Settled w)
                              /\ custom_unit e (Ran w a code) (step s (Connect e)))
     | _ => step s (Connect e) = s
     end.
Proof.
  intros (Hal & Hjobs & el & Hel & Hscript & Hst).
  destruct st as [|a|w a code]; simpl in Hst.
  - destruct Hst as (Hx & [Hw|[w Hw]] & Hlife).
    + rewrite (connect_idle_awaited e s el) by done.
      simpl. rewrite consumptions_app. simpl. rewrite app_nil_r.
      do 2 (split; [done|]). left. rewrite (elem_lookup _ _ _ Hel).
      split; [done|]. exists (negb (isSync el)).
      split; [intros r Hr; simpl; rewrite !lookup_alter_None; by apply Hal|].
      split; [done|].
      eexists. split; [|split].
      * simpl. rewrite !lookup_alter_eq, Hel. reflexivity.
      * done.
      * simpl. split; [done|]. split; [done|].
        rewrite lifecycle_app, Hlife. simpl. by rewrite bool_decide_eq_true_2.
    + destruct (connect_idle_settled e s el w) as (code & Hu & Hc & He); [done..|].
      do 2 (split; [done|]). right. exists w, (negb (isSync el)), code.
      by rewrite (elem_lookup _ _ _ Hel).
  - destruct Hst as (Hx & _). rewrite (connect_executed e s el) by done. done.
  - destruct Hst as (Hx & _). rewrite (connect_executed e s el) by done. done.
Qed.

(** ** The body of [onReady], case by case *)

(** The message [onReady] reports a pending error with. *)
Definition conflict_message (error : JsError) (el : Elem) : string :=
  "(" +:+ CONFLICTING_CODE +:+ ") " +:+ message error +:+ " for "
  +:+ outerHTML el (bool_decide (message error = INVALID_CONTENT)).

Definition ready_debug : Event := ConsoleDebug "[pyscript/main] PyScript Ready".

Lemma onReady_body_consumes wrap e s err :
  errors s !! e = Some err ->
  onReady_body wrap e s
  = (with_trace (trace s ++ [LedgerDelete e;
                             Stderr (io wrap) (Message (conflict_message err (elem s e)))])
       (with_errors (delete e (errors s)) s), Ok tt).
Proof.
  intros He. unfold onReady_body, bind, gets. rewrite He.
  unfold get_elem, gets, stderr, emit, modify, conflict_message. simpl.
  unfold with_trace. simpl. rewrite <- app_assoc. reflexivity.
Qed.

Lemma onReady_body_settled wrap e s el w0 :
  errors s !! e = None -> nodes s !! e = Some el -> isScript el = false ->
  _wrap el = Some (Settled w0) ->
  onReady_body wrap e s = (with_trace (trace s ++ [ready_debug]) s, Ok tt).
Proof.
  intros He Hel Hscript Hw. unfold onReady_body, bind, gets. rewrite He.
  unfold get_elem, gets. rewrite (elem_lookup _ _ _ Hel), Hscript.
  unfold resolve_wrap, bind, get_elem, gets. rewrite (elem_lookup _ _ _ Hel), Hw.
  reflexivity.
Qed.

Lemma onReady_body_unawaited wrap e s el :
  errors s !! e = None -> nodes s !! e = Some el -> isScript el = false ->
  _wrap el = Some (Awaited []) ->
  onReady_body wrap e s
  = (with_trace (trace s ++ [ready_debug])
       (with_nodes (alter (set_wrap (Some (Settled wrap))) e (nodes s)) s), Ok tt).
Proof.
  intros He Hel Hscript Hw. unfold onReady_body, bind, gets. rewrite He.
  unfold get_elem, gets. rewrite (elem_lookup _ _ _ Hel), Hscript.
  unfold resolve_wrap, bind, get_elem, gets. rewrite (elem_lookup _ _ _ Hel), Hw.
  reflexivity.
Qed.

Lemma onReady_body_awaited wrap e s el a :
  errors s !! e = None -> nodes s !! e = Some el -> isScript el = false ->
  _wrap el = Some (Awaited [a]) ->
  onReady_body wrap e s
  = (with_trace (trace s ++ [ready_debug])
       (with_jobs (jobs s ++ [Resume e a wrap])
          (with_nodes (alter (set_wrap (Some (Settled wrap))) e (nodes s)) s)), Ok tt).
Proof.
  intros He Hel Hscript Hw. unfold onReady_body, bind, gets. rewrite He.
  unfold get_elem, gets. rewrite (elem_lookup _ _ _ Hel), Hscript.
  unfold resolve_wrap, bind, get_elem, gets. rewrite (elem_lookup _ _ _ Hel), Hw.
  reflexivity.
Qed.

Lemma plugins_ran_custom_unit e st s s1 :
  plugins_ran s s1 -> custom_unit e st s -> custom_unit e st s1.
Proof.
  intros Hp (Hal & Hjobs & el & Hel & Hscript & Hst).
  pose proof (plugins_ran_lifecycle e _ _ Hp) as Hlife.
  destruct Hp as [(_ & _ & _ & Hn & Hf & _ & _ & _ & Hj) _].
  split; [|split].
  - intros r Hr. rewrite Hn. apply Hal. by rewrite <- Hf.
  - by rewrite Hj.
  - exists el. rewrite Hn, Hlife. done.
Qed.

Lemma plugins_ran_elem e s s1 : plugins_ran s s1 -> elem s1 e = elem s e.
Proof. intros [(_ & _ & _ & Hn & _) _]. unfold elem. by rewrite Hn. Qed.

(** The [onReady] of a custom element: either its stage and its wrap stay
    as they were (a plugin threw, or a pending error was consumed), or no
    error was pending and the wrap is delivered. *)
Lemma ready_custom e st s wrap :
  custom_unit e st s ->
  (custom_unit e st (step s (Invoke OnReady wrap e))
   /\ _wrap (elem (step s (Invoke OnReady wrap e)) e) = _wrap (elem s e))
  \/ (consumptions e (trace (step s (Invoke OnReady wrap e))) = consumptions e (trace s)
      /\ errors s !! e = None
      /\ exists st', custom_unit e st' (step s (Invoke OnReady wrap e))).
Proof.
  intros Hu. unfold step, handle, invoke.
  destruct (onReady_split wrap e s) as (s1 & Hp & [[err Hthrow]|Hbody]).
  { rewrite Hthrow. simpl.
    pose proof (plugins_ran_custom_unit e st s s1 Hp Hu) as Hu1.
    rewrite settle_idle by apply Hu1. left. split; [done|].
    by rewrite (plugins_ran_elem e _ _ Hp). }
  rewrite Hbody.
  pose proof (plugins_ran_custom_unit e st s s1 Hp Hu) as Hu1.
  pose proof (plugins_ran_consumptions e _ _ Hp) as Hcons.
  pose proof (plugins_ran_elem e _ _ Hp) as Helem.
  assert (errors s1 = errors s) as Herr by apply Hp.
  clear Hu Hp Hbody.
  destruct Hu1 as (Hal & Hjobs & el & Hel & Hscript & Hst).
  destruct (errors s1 !! e) as [err|] eqn:He.
  { rewrite (onReady_body_consumes wrap e s1 err He). simpl.
    rewrite settle_idle by done. left. split.
    - split; [done|]. split; [done|]. exists el. simpl.
      rewrite lifecycle_app. simpl. rewrite app_nil_r. done.
    - rewrite <- Helem. reflexivity. }
  right. rewrite <- Herr. split; [|split; [done|]].
  - destruct st as [|a|w0 a code]; simpl in Hst.
    + destruct Hst as (Hx & [Hw|[w0 Hw]] & Hlife).
      * rewrite (onReady_body_unawaited wrap e s1 el) by done. simpl.
        rewrite settle_idle by done. simpl.
        rewrite consumptions_app. simpl. by rewrite app_nil_r.
      * rewrite (onReady_body_settled wrap e s1 el w0) by done. simpl.
        rewrite settle_idle by done. simpl.
        rewrite consumptions_app. simpl. by rewrite app_nil_r.
    + destruct Hst as (Hx & Hw & Hlife).
      rewrite (onReady_body_awaited wrap e s1 el a) by done. simpl.
      rewrite Hjobs. simpl.
      match goal with |- context [settle ?s2] =>
        destruct (settle_resume e a wrap s2 eq_refl) as (Ht & _) end.
      cbv zeta in Ht. rewrite Ht. simpl trace.
      rewrite !consumptions_app, fetch_trace_consumptions, consumptions_done_trace.
      simpl. by rewrite !app_nil_r.
    + destruct Hst as (Hx & Hw & Hlife).
      rewrite (onReady_body_settled wrap e s1 el w0) by done. simpl.
      rewrite settle_idle by done. simpl.
      rewrite consumptions_app. simpl. by rewrite app_nil_r.
  - destruct st as [|a|w0 a code]; simpl in Hst.
    + destruct Hst as (Hx & [Hw|[w0 Hw]] & Hlife).
      * rewrite (onReady_body_unawaited wrap e s1 el) by done. simpl.
        rewrite settle_idle by done. exists Idle.
        split; [intros r Hr; simpl; rewrite lookup_alter_None; by apply Hal|].
        split; [done|]. eexists. split; [|split].
        -- simpl. rewrite lookup_alter_eq, Hel. reflexivity.
        -- done.
        -- simpl. split; [done|]. split; [right; by exists wrap|].
           rewrite lifecycle_app. simpl. by rewrite app_nil_r.
      * rewrite (onReady_body_settled wrap e s1 el w0) by done. simpl.
        rewrite settle_idle by done. exists Idle.
        split; [done|]. split; [done|]. exists el. simpl.
        rewrite lifecycle_app. simpl. rewrite app_nil_r.
        split; [done|]. split; [done|]. split; [done|]. split; [|done].
        right. by exists w0.
    + destruct Hst as (Hx & Hw & Hlife).
      rewrite (onReady_body_awaited wrap e s1 el a) by done. simpl.
      rewrite Hjobs. simpl.
      match goal with |- context [settle ?st2] => set (s2 := st2) end.
      destruct (settle_resume e a wrap s2 eq_refl) as (Ht & Hn & Hf & _ & Hj).
      cbv zeta in Ht, Hn.
      assert (nodes s2 !! e = Some (set_wrap (Some (Settled wrap)) el)) as Hel2.
      { simpl. by rewrite lookup_alter_eq, Hel. }
      rewrite (elem_lookup _ _ _ Hel2) in Ht, Hn.
      eexists (Ran wrap a _).
      split; [|split; [done|]].
      * intros r Hr. rewrite Hn. rewrite !lookup_alter_None. simpl.
        rewrite lookup_alter_None. apply Hal. by rewrite Hf in Hr.
      * eexists. split; [|split].
        -- rewrite Hn. rewrite !lookup_alter_eq, Hel2. reflexivity.
        -- done.
        -- simpl. split; [done|]. split; [done|].
           rewrite Ht. simpl trace. rewrite !lifecycle_app, Hlife.
           rewrite fetch_trace_lifecycle, lifecycle_done_trace. simpl.
           rewrite !bool_decide_eq_true_2 by done. reflexivity.
    + destruct Hst as (Hx & Hw & Hlife).
      rewrite (onReady_body_settled wrap e s1 el w0) by done. simpl.
      rewrite settle_idle by done. exists (Ran w0 a code).
      split; [done|]. split; [done|]. exists el. simpl.
      rewrite lifecycle_app. simpl. rewrite app_nil_r. done.
Qed.

Lemma custom_unit_kept e st s a :
  ~ touches e a -> custom_unit e st s -> custom_unit e st (step s a).
Proof. intros Ha Hu. by apply custom_unit_framed. Qed.

(** Whatever happens on the page, a custom element is at one of its stages. *)
Lemma step_custom e st s a :
  custom_unit e st s -> exists st', custom_unit e st' (step s a).
Proof.
  intros Hu.
  destruct a as [markup|this|c wrap x|error element].
  - exists st. apply custom_unit_kept; [simpl; tauto | done].
  - destruct (decide (this = e)) as [->|Hne].
    + destruct (connect_custom e st s Hu) as (_ & _ & Hst).
      destruct st as [|a|w a code].
      * destruct Hst as [[_ [a Ha]]|(w & a & code & _ & Ha)]; eauto.
      * rewrite Hst. eauto.
      * rewrite Hst. eauto.
    + exists st. apply custom_unit_kept; [simpl; tauto | done].
  - destruct c;
      try (exists st; apply custom_unit_kept; [simpl; tauto | done]).
    destruct (decide (x = e)) as [->|Hne].
    + destruct (ready_custom e st s wrap Hu) as [[Ha _]|(_ & _ & Ha)]; eauto.
    + exists st. apply custom_unit_kept; [simpl; tauto | done].
  - exists st. apply custom_unit_kept; [simpl; tauto | done].
Qed.

Lemma run_actions_custom e acts : forall st s,
  custom_unit e st s -> exists st', custom_unit e st' (run_actions acts s).
Proof.
  unfold run_actions. induction acts as [|a acts IH]; intros st s Hu; simpl; [eauto|].
  destruct (step_custom e st s a Hu) as [st1 H1]. by eapply IH.
Qed.

(** ** A script unit at its ready checkpoint *)

Lemma script_run_eq wrap e isAsync s :
  let code := source_of true (elem s e) in
  let m := (dispatch e TYPE "ready" ;;
            code <- fetchSource e (io wrap) true ;;
            result <- call_run wrap e isAsync code ;;
            dispatchDone e isAsync result) in
  trace (fst (m s))
  = trace s ++ [Dispatch e TYPE "ready"] ++ fetch_trace (io wrap) true (elem s e)
      ++ [Resolved e code; Run e isAsync code (run_outcome wrap isAsync code)]
      ++ (if isAsync then [] else done_trace wrap e isAsync code)
  /\ jobs (fst (m s)) = jobs s ++ run_jobs wrap e isAsync code
  /\ nodes (fst (m s)) = nodes s /\ fresh (fst (m s)) = fresh s
  /\ errors (fst (m s)) = errors s.
Proof.
  cbv zeta. unfold bind, dispatch, emit, modify.
  rewrite fetchSource_eq. simpl. rewrite call_run_eq. simpl.
  change (elem (with_trace (trace s ++ [Dispatch e TYPE "ready"]) s) e)
    with (elem s e).
  unfold run_jobs, done_trace, dispatchDone, run_outcome.
  destruct isAsync; [destruct (runAsync wrap _) | destruct (run wrap _)];
    unfold enqueue, dispatch, emit, modify, ret; simpl;
    rewrite <- ?app_assoc, ?app_nil_r; simpl; done.
Qed.

Lemma settle_then_done e s :
  jobs s = [ThenDone e] ->
  settle s = with_trace (trace s ++ [Dispatch e TYPE "done"]) (with_jobs [] s).
Proof.
  intros Hjobs. unfold settle. rewrite Hjobs.
  change (sum_list_with job_weight [ThenDone e]) with 1.
  rewrite (drain_cons _ _ _ _ Hjobs). by rewrite drain_nil.
Qed.

(** What the element of a script unit keeps whatever is written on it. *)
Definition script_unit (e : ElemRef) (s : State) : Prop :=
  allocated s /\ jobs s = []
  /\ exists el, nodes s !! e = Some el /\ isScript el = true /\ _wrap el = None.

Lemma display_target_quiet element el js tr er :
  preserves (fun s => jobs s = js /\ trace s = tr /\ errors s = er)
    (display_target element el).
Proof.
  open_js; unfold createElement; cbv zeta;
    repeat first [ keep_step | progress simpl | assumption | done ].
Qed.

Lemma display_target_framed e v element el :
  preserves (framed e v) (display_target element el).
Proof. frame. Qed.

(** The life of a script unit that ran: "ready" comes first, the source is
    resolved after it. *)
Definition script_life (wrap : Wrap) (e : ElemRef) (isAsync : bool) (code : string)
  : list Event :=
  [Dispatch e TYPE "ready"; Resolved e code;
   Run e isAsync code (run_outcome wrap isAsync code)]
  ++ done_trace wrap e isAsync code.

Lemma onReady_body_script wrap e s el :
  errors s !! e = None -> nodes s !! e = Some el -> isScript el = true ->
  onReady_body wrap e s
  = ((display_target e el ;;
      dispatch e TYPE "ready" ;;
      code <- fetchSource e (io wrap) true ;;
      result <- call_run wrap e (negb (isSync el)) code ;;
      dispatchDone e (negb (isSync el)) result) ;;
     emit ready_debug) s.
Proof.
  intros He Hel Hscript. unfold onReady_body. unfold bind at 1, gets at 1.
  rewrite He. unfold bind at 1, get_elem at 1, gets at 1.
  rewrite (elem_lookup _ _ _ Hel), Hscript. reflexivity.
Qed.

Lemma then_emit_projections {A} (m : Js A) ev s :
  let r := fst ((m ;; emit ev) s) in
  jobs r = jobs (fst (m s)) /\ nodes r = nodes (fst (m s))
  /\ fresh r = fresh (fst (m s)) /\ errors r = errors (fst (m s))
  /\ (trace r = trace (fst (m s)) \/ trace r = trace (fst (m s)) ++ [ev]).
Proof.
  cbv zeta. unfold bind. destruct (m s) as [s' [a|err]]; simpl.
  - repeat split; auto.
  - repeat split; auto.
Qed.

Lemma script_unit_framed e s a :
  ~ touches e a -> script_unit e s ->
  script_unit e (step s a)
  /\ lifecycle e (trace (step s a)) = lifecycle e (trace s)
  /\ consumptions e (trace (step s a)) = consumptions e (trace s).
Proof.
  intros Ha (Hal & Hjobs & el & Hel & Hscript & Hw).
  assert (framed e (mkView (lifecycle e (trace s)) (consumptions e (trace s))
                      (_wrap el) (executed el) (tagName el)) s) as Hf.
  { split; [done|]. do 2 (split; [done|]). split; [by exists el|].
    rewrite Hjobs. constructor. }
  apply (step_framed _ _ _ a Ha) in Hf.
  destruct Hf as (Hal' & Hlife' & Hcons' & (el' & Hel' & Hw' & Hx' & Ht') & _).
  simpl in *. split; [|done].
  split; [done|]. split; [apply step_quiescent|]. exists el'.
  split; [done|]. split; [|congruence].
  unfold isScript in *. by rewrite Ht'.
Qed.

Lemma connect_script e s :
  script_unit e s -> step s (Connect e) = s.
Proof.
  intros (Hal & Hjobs & el & Hel & Hscript & Hw). unfold step, handle.
  unfold bind, get_elem, gets. rewrite (elem_lookup _ _ _ Hel), Hw. simpl.
  by rewrite settle_idle.
Qed.

Lemma plugins_ran_script_unit e s s1 :
  plugins_ran s s1 -> script_unit e s -> script_unit e s1.
Proof.
  intros [(_ & _ & _ & Hn & Hf & _ & _ & _ & Hj) _] (Hal & Hjobs & Hel).
  split; [|split].
  - intros r Hr. rewrite Hn. apply Hal. by rewrite <- Hf.
  - by rewrite Hj.
  - by rewrite Hn.
Qed.

Lemma script_unit_transfer e s2 r :
  nodes r = nodes s2 -> fresh r = fresh s2 -> jobs r = [] ->
  allocated s2 ->
  (exists el, nodes s2 !! e = Some el /\ isScript el = true /\ _wrap el = None) ->
  script_unit e r.
Proof.
  intros Hn Hf Hj Hal Hel. split; [|split; [done|]].
  - intros x Hx. rewrite Hn. apply Hal. by rewrite <- Hf.
  - by rewrite Hn.
Qed.

Lemma lifecycle_script_run e wrap a code channel el :
  lifecycle e ([Dispatch e TYPE "ready"] ++ fetch_trace channel true el
                 ++ [Resolved e code; Run e a code (run_outcome wrap a code)]
                 ++ done_trace wrap e a code)
  = script_life wrap e a code.
Proof.
  rewrite !lifecycle_app, fetch_trace_lifecycle, lifecycle_done_trace. simpl.
  rewrite !bool_decide_eq_true_2 by done. reflexivity.
Qed.

Lemma consumptions_script_run e wrap a code channel el :
  consumptions e ([Dispatch e TYPE "ready"] ++ fetch_trace channel true el
                    ++ [Resolved e code; Run e a code (run_outcome wrap a code)]
                    ++ done_trace wrap e a code)
  = [].
Proof.
  rewrite !consumptions_app, fetch_trace_consumptions, consumptions_done_trace.
  reflexivity.
Qed.

(** The [onReady] of a script unit: either nothing of its life happens (a
    plugin threw, a pending error was consumed, or the target it names is
    not in the document), or no error was pending and it lives its whole
    life in this one task. *)
Lemma ready_script e s wrap :
  script_unit e s ->
  script_unit e (step s (Invoke OnReady wrap e))
  /\ ((lifecycle e (trace (step s (Invoke OnReady wrap e))) = lifecycle e (trace s)
       /\ (consumptions e (trace (step s (Invoke OnReady wrap e)))
            = consumptions e (trace s)
           \/ (errors s !! e <> None
               /\ consumptions e (trace (step s (Invoke OnReady wrap e)))
                  = consumptions e (trace s) ++ [LedgerDelete e])))
      \/ (errors s !! e = None
          /\ consumptions e (trace (step s (Invoke OnReady wrap e)))
             = consumptions e (trace s)
          /\ exists a code,
               lifecycle e (trace (step s (Invoke OnReady wrap e)))
               = lifecycle e (trace s) ++ script_life wrap e a code)).
Proof.
  intros Hu. unfold step, handle, invoke.
  destruct (onReady_split wrap e s) as (s1 & Hp & [[err Hthrow]|Hbody]).
  { rewrite Hthrow. simpl.
    pose proof (plugins_ran_script_unit e s s1 Hp Hu) as Hu1.
    rewrite settle_idle by apply Hu1. split; [done|]. left.
    rewrite (plugins_ran_lifecycle e _ _ Hp), (plugins_ran_consumptions e _ _ Hp).
    auto. }
  rewrite Hbody.
  pose proof (plugins_ran_script_unit e s s1 Hp Hu) as Hu1.
  rewrite <- (plugins_ran_lifecycle e _ _ Hp), <- (plugins_ran_consumptions e _ _ Hp).
  assert (errors s1 = errors s) as Herr by apply Hp. rewrite <- Herr.
  clear Hu Hp Hbody Herr s.
  destruct Hu1 as (Hal & Hjobs & el & Hel & Hscript & Hw).
  destruct (errors s1 !! e) as [err|] eqn:He.
  { rewrite (onReady_body_consumes wrap e s1 err He). simpl.
    rewrite settle_idle by done. split.
    - split; [done|]. split; [done|]. by exists el.
    - left. simpl. rewrite lifecycle_app, consumptions_app. simpl.
      rewrite bool_decide_eq_true_2 by done. rewrite app_nil_r.
      split; [done|]. right. done. }
  rewrite (onReady_body_script wrap e s1 el) by done.
  match goal with |- context [fst ((?m0 ;; emit ready_debug) s1)] =>
    set (m := m0);
    destruct (then_emit_projections m ready_debug s1) as (Hj & Hn & Hf & _ & Ht)
  end.
  cbv zeta in Hj, Hn, Hf, Ht.
  set (r := fst ((m ;; emit ready_debug) s1)) in *.
  assert (framed e (mkView (lifecycle e (trace s1)) (consumptions e (trace s1))
                      (_wrap el) (executed el) (tagName el)) s1) as Hfr.
  { split; [done|]. do 2 (split; [done|]). split; [by exists el|].
    rewrite Hjobs. constructor. }
  apply (display_target_framed _ _ e el) in Hfr.
  pose proof (display_target_quiet e el [] (trace s1) (errors s1) s1
                (conj Hjobs (conj eq_refl eq_refl))) as Hq.
  destruct (display_target e el s1) as [s2 [shown|err]] eqn:Ed; simpl in Hfr, Hq.
  - (* the display target is there: the unit runs *)
    assert (m s1 = (dispatch e TYPE "ready" ;;
                    code <- fetchSource e (io wrap) true ;;
                    result <- call_run wrap e (negb (isSync el)) code ;;
                    dispatchDone e (negb (isSync el)) result) s2) as Hm.
    { unfold m. by rewrite (bind_ok _ _ _ _ _ Ed). }
    rewrite Hm in Hj, Hn, Hf, Ht.
    destruct (script_run_eq wrap e (negb (isSync el)) s2) as (Ht2 & Hj2 & Hn2 & Hf2 & _).
    cbv zeta in Ht2, Hj2, Hn2, Hf2.
    rewrite Hj2 in Hj. rewrite Hn2 in Hn. rewrite Hf2 in Hf. rewrite Ht2 in Ht.
    destruct Hq as (Hjobs2 & Htrace2 & _).
    destruct Hfr as (Hal2 & _ & _ & (el2 & Hel2 & Hw2 & _ & Htag2) & _).
    simpl in Hw2, Htag2. rewrite Hjobs2 in Hj. simpl in Hj. rewrite Htrace2 in Ht.
    assert (exists el', nodes s2 !! e = Some el' /\ isScript el' = true
                        /\ _wrap el' = None) as Hel2'.
    { exists el2. split; [done|]. split; [|congruence].
      unfold isScript in *. by rewrite Htag2. }
    set (a := negb (isSync el)) in *.
    set (code := source_of true (elem s2 e)) in *.
    assert (lifecycle e (trace r) ++ lifecycle e (if a then done_trace wrap e a code else [])
            = lifecycle e (trace s1) ++ script_life wrap e a code
            /\ consumptions e (trace r) = consumptions e (trace s1)) as [Hlife Hcons].
    { rewrite <- (lifecycle_script_run e wrap a code (io wrap) (elem s2 e)).
      destruct Ht as [-> | ->];
        rewrite ?lifecycle_app, ?consumptions_app, fetch_trace_lifecycle,
          fetch_trace_consumptions; simpl;
        rewrite ?bool_decide_eq_true_2 by done; simpl;
        destruct a; rewrite ?lifecycle_done_trace, ?consumptions_done_trace;
        rewrite ?app_nil_r; rewrite <- ?app_assoc; simpl; done. }
    unfold run_jobs in Hj. unfold done_trace in Hlife.
    destruct a; [destruct (run_outcome wrap true code) eqn:Hout|].
    + rewrite (settle_then_done e r Hj). simpl. split.
      * eapply script_unit_transfer; [exact Hn | exact Hf | done | done | done].
      * right. split; [done|]. split.
        -- rewrite consumptions_app. simpl. by rewrite app_nil_r.
        -- exists true, code. rewrite lifecycle_app. exact Hlife.
    + rewrite settle_idle by done. split.
      * eapply script_unit_transfer; [exact Hn | exact Hf | done | done | done].
      * right. split; [done|]. split; [done|]. exists true, code.
        simpl in Hlife. by rewrite app_nil_r in Hlife.
    + rewrite settle_idle by done. split.
      * eapply script_unit_transfer; [exact Hn | exact Hf | done | done | done].
      * right. split; [done|]. split; [done|]. exists true, code.
        simpl in Hlife. by rewrite app_nil_r in Hlife.
    + rewrite settle_idle by done. split.
      * eapply script_unit_transfer; [exact Hn | exact Hf | done | done | done].
      * right. split; [done|]. split; [done|]. exists false, code.
        simpl in Hlife. by rewrite app_nil_r in Hlife.
  - (* the target named is not in the document: [onReady] throws *)
    assert (m s1 = (s2, Throw err)) as Hm.
    { unfold m. by rewrite (bind_throw _ _ _ _ _ Ed). }
    rewrite Hm in Hj, Hn, Hf, Ht. simpl in Hj, Hn, Hf, Ht.
    destruct Hq as (Hjobs2 & Htrace2 & _).
    destruct Hfr as (Hal2 & _ & _ & (el2 & Hel2 & Hw2 & _ & Htag2) & _).
    simpl in Hw2, Htag2. rewrite Hjobs2 in Hj. rewrite Htrace2 in Ht.
    rewrite settle_idle by done. split.
    + eapply script_unit_transfer; [exact Hn | exact Hf | done | done |].
      exists el2. split; [done|]. split; [|congruence].
      unfold isScript in *. by rewrite Htag2.
    + left. destruct Ht as [-> | ->];
        rewrite ?lifecycle_app, ?consumptions_app; simpl; rewrite ?app_nil_r; auto.
Qed.

(** ** A unit before and after its ready checkpoint *)

Definition is_ready (e : ElemRef) (a : Action) : bool :=
  match a with
  | Invoke OnReady _ x => bool_decide (x = e)
  | _ => false
  end.

(** How often a schedule brings the unit to its ready checkpoint. *)
Definition readies (e : ElemRef) (acts : list Action) : nat :=
  length (List.filter (is_ready e) acts).

(** The unit has not been readied: a script unit that has done nothing, or
    a custom element whose wrap is still awaited. *)
Definition waiting (e : ElemRef) (s : State) : Prop :=
  (script_unit e s /\ lifecycle e (trace s) = [])
  \/ (exists st ws, custom_unit e st s /\ _wrap (elem s e) = Some (Awaited ws)).

(** The unit was readied with no error pending: a custom element at any of
    its stages, or a script unit that lived its life. *)
Definition readied (e : ElemRef) (s : State) : Prop :=
  consumptions e (trace s) = []
  /\ ((exists st, custom_unit e st s)
      \/ (script_unit e s
          /\ exists w a code, lifecycle e (trace s) = script_life w e a code)).

Lemma not_ready_cases e a :
  is_ready e a = false -> ~ touches e a \/ a = Connect e.
Proof.
  destruct a as [markup|this|c wrap x|error element]; simpl.
  - intros _. left. tauto.
  - intros _. destruct (decide (this = e)) as [->|Hne]; [by right | by left].
  - destruct c; try (intros _; left; tauto).
    intros H. left. by apply bool_decide_eq_false_1 in H.
  - intros _. left. tauto.
Qed.

Lemma waiting_step e s a :
  is_ready e a = false -> waiting e s ->
  waiting e (step s a)
  /\ consumptions e (trace (step s a)) = consumptions e (trace s).
Proof.
  intros Ha Hw. destruct (not_ready_cases e a Ha) as [Hnt| ->].
  - destruct Hw as [[Hu Hlife]|(st & ws & Hu & Hslot)].
    + destruct (script_unit_framed e s a Hnt Hu) as (Hu' & Hl' & Hc').
      split; [left; split; [done|congruence]|done].
    + destruct (custom_unit_framed e st s a Hnt Hu) as (Hu' & Hc' & Hs').
      split; [right; exists st, ws; split; [done|congruence]|done].
  - destruct Hw as [[Hu Hlife]|(st & ws & Hu & Hslot)].
    + rewrite (connect_script e s Hu). split; [by left|done].
    + destruct (connect_custom e st s Hu) as (Hc & _ & Hst).
      split; [|done].
      right. destruct st as [|a|w a code].
      * destruct Hst as [[_ [a Ha']]|(w & a & code & Hs & _)]; [|congruence].
        exists (Parked a), [a]. split; [done|].
        destruct Ha' as (Hal & Hj & el & Hel & Hsc & Hst').
        rewrite (elem_lookup _ _ _ Hel). apply Hst'.
      * rewrite Hst. eauto.
      * rewrite Hst. eauto.
Qed.

Lemma readied_step e s a :
  is_ready e a = false -> readied e s -> readied e (step s a).
Proof.
  intros Ha [Hc Hr]. destruct (not_ready_cases e a Ha) as [Hnt| ->].
  - destruct Hr as [[st Hu]|(Hu & w & a' & code & Hlife)].
    + destruct (custom_unit_framed e st s a Hnt Hu) as (Hu' & Hc' & _).
      split; [congruence|]. left. eauto.
    + destruct (script_unit_framed e s a Hnt Hu) as (Hu' & Hl' & Hc').
      split; [congruence|]. right. split; [done|]. exists w, a', code. congruence.
  - destruct Hr as [[st Hu]|(Hu & w & a' & code & Hlife)].
    + destruct (connect_custom e st s Hu) as (Hc' & _ & Hst).
      split; [congruence|]. left. destruct st as [|a|w a code].
      * destruct Hst as [[_ [a Ha']]|(w & a & code & _ & Ha')]; eauto.
      * rewrite Hst. eauto.
      * rewrite Hst. eauto.
    + rewrite (connect_script e s Hu). split; [done|]. right. eauto.
Qed.

(** At its ready checkpoint a waiting unit either keeps waiting (a plugin
    threw, a pending error was consumed, the target is missing) or is
    readied. *)
Lemma ready_step e s wrap :
  waiting e s -> consumptions e (trace s) = [] ->
  waiting e (step s (Invoke OnReady wrap e)) \/ readied e (step s (Invoke OnReady wrap e)).
Proof.
  intros Hw Hc. destruct Hw as [[Hu Hlife]|(st & ws & Hu & Hslot)].
  - destruct (ready_script e s wrap Hu) as (Hu' & [[Hl' _]|(_ & Hc' & a & code & Hl')]).
    + left. left. split; [done|congruence].
    + right. split; [congruence|]. right. split; [done|].
      exists wrap, a, code. rewrite Hl', Hlife. done.
  - destruct (ready_custom e st s wrap Hu) as [[Hu' Hs']|(Hc' & _ & st' & Hu')].
    + left. right. exists st, ws. split; [done|congruence].
    + right. split; [congruence|]. left. eauto.
Qed.


Lemma is_ready_true e a :
  is_ready e a = true -> exists wrap, a = Invoke OnReady wrap e.
Proof.
  destruct a as [markup|this|c wrap x|error element]; simpl; try done.
  destruct c; try done. intros H. apply bool_decide_eq_true_1 in H. subst.
  by exists wrap.
Qed.

Lemma waiting_run e acts : forall s,
  readies e acts = 0 -> waiting e s ->
  waiting e (run_actions acts s)
  /\ consumptions e (trace (run_actions acts s)) = consumptions e (trace s).
Proof.
  unfold run_actions, readies.
  induction acts as [|a acts IH]; intros s Hr Hw; simpl; [done|].
  simpl in Hr. destruct (is_ready e a) eqn:Ha; [done|].
  destruct (waiting_step e s a Ha Hw) as [Hw' Hc'].
  destruct (IH (step s a) Hr Hw') as [Hw'' Hc'']. split; [done|congruence].
Qed.

Lemma readied_run e acts : forall s,
  readies e acts = 0 -> readied e s -> readied e (run_actions acts s).
Proof.
  unfold run_actions, readies.
  induction acts as [|a acts IH]; intros s Hr Hw; simpl; [done|].
  simpl in Hr. destruct (is_ready e a) eqn:Ha; [done|].
  apply IH; [done|]. by apply readied_step.
Qed.

(** A unit readied at most once ends waiting or readied. *)
Lemma lifecycle_run e acts : forall s,
  readies e acts <= 1 -> waiting e s -> consumptions e (trace s) = [] ->
  waiting e (run_actions acts s) \/ readied e (run_actions acts s).
Proof.
  induction acts as [|a acts IH]; intros s Hr Hw Hc; [by left|].
  change (run_actions (a :: acts) s) with (run_actions acts (step s a)).
  unfold readies in Hr. simpl in Hr. destruct (is_ready e a) eqn:Ha.
  - destruct (is_ready_true e a Ha) as [wrap ->]. simpl in Hr.
    assert (readies e acts = 0) as Hr0 by (unfold readies; lia).
    destruct (ready_step e s wrap Hw Hc) as [Hw'|Hd'].
    + left. by apply waiting_run.
    + right. by apply readied_run.
  - destruct (waiting_step e s a Ha Hw) as [Hw' Hc'].
    apply IH; [done|done|congruence].
Qed.

(** ** Reading a trace through a unit's life *)

(** Membership in a list that is written out, as a disjunction of equations. *)
Ltac written_out :=
  repeat match goal with
         | H : _ /\ _ |- _ => destruct H
         | H : exists _, _ |- _ => destruct H
         | H : _ ∈ _ |- _ =>
             progress rewrite ?elem_of_app, ?elem_of_cons, ?elem_of_nil in H
         end;
  rewrite ?elem_of_app, ?elem_of_cons, ?elem_of_nil.

(** An equivalence between memberships both sides of which are absurd. *)
Ltac both_absurd :=
  split; intros; written_out; exfalso; intuition (try discriminate; try congruence).

Ltac is_member := written_out; auto 20.

Lemma lifecycle_elem_of e ev tr :
  about e ev = true -> (ev ∈ tr) <-> (ev ∈ lifecycle e tr).
Proof.
  intros Ha. unfold lifecycle. rewrite !list_elem_of_In, List.filter_In. tauto.
Qed.

Lemma consumptions_elem_of e tr : (LedgerDelete e ∈ tr) <-> consumptions e tr <> [].
Proof.
  unfold consumptions. split.
  - intros H Hnil.
    assert (LedgerDelete e ∈ List.filter (is_consumption e) tr) as H'.
    { rewrite list_elem_of_In, List.filter_In, <- list_elem_of_In. split; [done|].
      simpl. by rewrite bool_decide_eq_true_2. }
    rewrite Hnil in H'. by apply elem_of_nil in H'.
  - induction tr as [|ev tr IH]; simpl; [done|].
    destruct (is_consumption e ev) eqn:E.
    + intros _. destruct ev; simpl in E; try done.
      apply bool_decide_eq_true_1 in E. subst. apply list_elem_of_here.
    + intros H. apply list_elem_of_further. by apply IH.
Qed.

Lemma about_dispatch e t w : about e (Dispatch e t w) = true.
Proof. simpl. by rewrite bool_decide_eq_true_2. Qed.

Lemma about_run e a c r : about e (Run e a c r) = true.
Proof. simpl. by rewrite bool_decide_eq_true_2. Qed.

Lemma about_resolved e c : about e (Resolved e c) = true.
Proof. simpl. by rewrite bool_decide_eq_true_2. Qed.

(** The life of a unit that is still waiting holds nothing but, for a
    custom element, its attachment. *)
Lemma waiting_life e s :
  waiting e s -> lifecycle e (trace s) = [] \/ lifecycle e (trace s) = [Attached e].
Proof.
  intros [[_ Hlife]|(st & ws & (_ & _ & el & Hel & _ & Hst) & Hslot)]; [by left|].
  rewrite (elem_lookup _ _ _ Hel) in Hslot.
  destruct st as [|a|w a code]; simpl in Hst.
  - left. apply Hst.
  - right. apply Hst.
  - destruct Hst as (_ & Hw & _). congruence.
Qed.

(** The life of a unit that was readied. *)
Lemma readied_life e s :
  readied e s ->
  consumptions e (trace s) = []
  /\ (lifecycle e (trace s) = [] \/ lifecycle e (trace s) = [Attached e]
      \/ (exists w a code, lifecycle e (trace s) = custom_life w e a code)
      \/ (exists w a code, lifecycle e (trace s) = script_life w e a code)).
Proof.
  intros [Hc [[st (_ & _ & el & _ & _ & Hst)]|(_ & w & a & code & Hlife)]];
    (split; [done|]).
  - destruct st as [|a|w a code]; simpl in Hst.
    + left. apply Hst.
    + right. left. apply Hst.
    + right. right. left. exists w, a, code. apply Hst.
  - right. right. right. eauto.
Qed.

(** C3 as the code has it.  For a unit that has not been readied, of
    which no error was consumed, and that is readied at most once: "done"
    is dispatched if and only if "ready" was dispatched, no pending error
    was consumed at the ready checkpoint, and the unit's execution completed
    (its [run] returned, or its [runAsync] promise was fulfilled).  And when
    the unit was run and its execution did not complete ([run] threw, or the
    [runAsync] promise rejected or never settles), "ready" has been
    dispatched and "done" is not, whatever comes after. *)
Theorem done_iff_ready_and_run_completed (e : ElemRef) (s : State)
  (acts : list Action) :
  waiting e s -> consumptions e (trace s) = [] -> readies e acts <= 1 ->
  ((Dispatch e TYPE "done" ∈ trace (run_actions acts s))
   <-> ((Dispatch e TYPE "ready" ∈ trace (run_actions acts s))
        /\ (LedgerDelete e ∉ trace (run_actions acts s))
        /\ (exists a code, Run e a code Done ∈ trace (run_actions acts s))))
  /\ (forall a code r,
        Run e a code r ∈ trace (run_actions acts s) -> r <> Done ->
        (Dispatch e TYPE "ready" ∈ trace (run_actions acts s))
        /\ (Dispatch e TYPE "done" ∉ trace (run_actions acts s))).
Proof.
  intros Hw Hc Hr.
  pose proof (lifecycle_run e acts s Hr Hw Hc) as Hend.
  split.
  - rewrite consumptions_elem_of.
    rewrite (lifecycle_elem_of e (Dispatch e TYPE "done")) by apply about_dispatch.
    rewrite (lifecycle_elem_of e (Dispatch e TYPE "ready")) by apply about_dispatch.
    assert ((exists a code, Run e a code Done ∈ trace (run_actions acts s))
            <-> (exists a code,
                   Run e a code Done ∈ lifecycle e (trace (run_actions acts s))))
      as ->.
    { split; intros (a & code & H); exists a, code.
      - by apply (proj1 (lifecycle_elem_of e _ _ (about_run e a code Done))).
      - by apply (proj2 (lifecycle_elem_of e _ _ (about_run e a code Done))). }
    destruct Hend as [Hw'|Hd'].
    + destruct (waiting_life e _ Hw') as [-> | ->]; both_absurd.
    + destruct (readied_life e _ Hd')
        as (-> & [-> | [-> | [(w & a & code & ->)|(w & a & code & ->)]]]).
      * both_absurd.
      * both_absurd.
      * unfold custom_life, done_trace.
        destruct (run_outcome w a code) eqn:E; [|both_absurd..].
        split; [intros _ | intros _; is_member].
        split; [is_member|]. split; [by intros Hn|]. exists a, code. is_member.
      * unfold script_life, done_trace.
        destruct (run_outcome w a code) eqn:E; [|both_absurd..].
        split; [intros _ | intros _; is_member].
        split; [is_member|]. split; [by intros Hn|]. exists a, code. is_member.
  - intros a0 code0 r Hrun Hnot.
    apply (lifecycle_elem_of e _ _ (about_run e a0 code0 r)) in Hrun.
    rewrite (lifecycle_elem_of e (Dispatch e TYPE "done")) by apply about_dispatch.
    rewrite (lifecycle_elem_of e (Dispatch e TYPE "ready")) by apply about_dispatch.
    destruct Hend as [Hw'|Hd'].
    + exfalso. destruct (waiting_life e _ Hw') as [Hl | Hl]; rewrite Hl in Hrun;
        written_out; intuition discriminate.
    + destruct (readied_life e _ Hd')
        as (_ & [Hl | [Hl | [(w & a & code & Hl)|(w & a & code & Hl)]]]);
        rewrite Hl in *.
      * exfalso. written_out. intuition discriminate.
      * exfalso. written_out. intuition discriminate.
      * unfold custom_life, done_trace in *.
        destruct (run_outcome w a code) eqn:E.
        -- exfalso. written_out. intuition (try discriminate; congruence).
        -- split; [is_member|]. intros Hdone. written_out.
           intuition discriminate.
        -- split; [is_member|]. intros Hdone. written_out.
           intuition discriminate.
      * unfold script_life, done_trace in *.
        destruct (run_outcome w a code) eqn:E.
        -- exfalso. written_out. intuition (try discriminate; congruence).
        -- split; [is_member|]. intros Hdone. written_out.
           intuition discriminate.
        -- split; [is_member|]. intros Hdone. written_out.
           intuition discriminate.
Qed.

(** ** A pending error at the ready checkpoint *)

(** What an awaited callback does to the plugins' state, and how it ends. *)
Definition run_callback (a : option Wrap) (b : nat) (cb : Callback) (w : W)
  : W * Completion :=
  match cb with
  | SyncFn _ body => body a b w
  | AsyncFn _ pre post => post a b (pre a b w)
  end.


Definition is_stderr (ev : Event) : bool :=
  match ev with
  | Stderr _ _ => true
  | _ => false
  end.

(** What was written to [io.stderr]. *)
Definition stderr_log (tr : list Event) : list Event := List.filter is_stderr tr.

Definition is_run (e : ElemRef) (ev : Event) : bool :=
  match ev with
  | Run x _ _ _ => bool_decide (x = e)
  | _ => false
  end.

(** The calls of [run] and [runAsync] for a unit. *)
Definition runs (e : ElemRef) (tr : list Event) : list Event :=
  List.filter (is_run e) tr.

Lemma call_awaited_result hook a b cb s :
  pw (fst (call_awaited hook a b cb s)) = fst (run_callback a b cb (pw s))
  /\ snd (call_awaited hook a b cb s)
     = match snd (run_callback a b cb (pw s)) with
       | Normal => Ok tt
       | Abrupt e => Throw e
       end.
Proof.
  unfold call_awaited, bind, emit, modify, run_plugin, ret, throw, run_callback.
  destruct cb as [name body|name pre post]; simpl.
  - by destruct (body a b (pw s)) as [w [|e]].
  - by destruct (post a b (pre a b (pw s))) as [w [|e]].
Qed.


Lemma registerModule_pw wrap s : pw (fst (registerModule wrap s)) = pw s.
Proof.
  unfold registerModule, bind, gets, modify, emit, ret. simpl.
  by destruct (alreadyRegistered s).
Qed.




(** The runs of a unit are part of its life. *)
Lemma runs_lifecycle e tr : runs e tr = runs e (lifecycle e tr).
Proof.
  unfold runs, lifecycle. induction tr as [|ev tr IH]; simpl; [done|].
  destruct ev; simpl; try done.
  all: case_bool_decide; simpl; rewrite ?bool_decide_eq_true_2 by done;
    rewrite ?bool_decide_eq_false_2 by done; by rewrite ?IH.
Qed.





(** ** A custom element attached again and again *)

Definition is_resolved (e : ElemRef) (ev : Event) : bool :=
  match ev with
  | Resolved x _ => bool_decide (x = e)
  | _ => false
  end.

(** The times [fetchSource] resolved the source of a unit. *)
Definition resolutions (e : ElemRef) (tr : list Event) : list Event :=
  List.filter (is_resolved e) tr.

Lemma resolutions_lifecycle e tr : resolutions e tr = resolutions e (lifecycle e tr).
Proof.
  unfold resolutions, lifecycle. induction tr as [|ev tr IH]; simpl; [done|].
  destruct ev; simpl; try done.
  all: case_bool_decide; simpl; rewrite ?bool_decide_eq_true_2 by done;
    rewrite ?bool_decide_eq_false_2 by done; by rewrite ?IH.
Qed.

Lemma stage_runs_once e st el life :
  stage_of e st el life ->
  length (runs e life) <= 1 /\ length (resolutions e life) <= 1.
Proof.
  destruct st as [|a|w a code]; simpl.
  - intros (_ & _ & ->). simpl. lia.
  - intros (_ & _ & ->). simpl. lia.
  - intros (_ & _ & ->). unfold custom_life, done_trace, runs, resolutions.
    destruct (run_outcome w a code); simpl;
      rewrite ?bool_decide_eq_true_2 by done; simpl; lia.
Qed.

(** The constructor leaves a custom element idle. *)
Lemma construct_idle markup s :
  allocated s -> jobs s = [] -> isScript markup = false ->
  lifecycle (fresh s) (trace s) = [] ->
  custom_unit (fresh s) Idle (step s (Construct markup))
  /\ executed (elem (step s (Construct markup)) (fresh s)) = false.
Proof.
  intros Hal Hjobs Hscript Hlife. unfold step, handle, construct, bind, gets, modify, ret.
  simpl. rewrite settle_idle by done. split.
  - split; [|split; [done|]].
    + intros r Hr. simpl in *. rewrite lookup_insert_ne by lia. apply Hal. lia.
    + eexists. simpl. rewrite lookup_insert_eq. split; [done|]. split; [done|].
      split; [done|]. split; [by left | done].
  - unfold elem. simpl. by rewrite lookup_insert_eq.
Qed.

(** C4.  Take a custom element as its constructor left it and let anything
    happen on the page, its [connectedCallback] firing any number of times
    among it.  Its body is passed to [run] or [runAsync] at most once and
    its source is resolved at most once; once [executed] is set, a firing
    of [connectedCallback] changes nothing at all; and a firing always
    leaves [executed] set. *)
Theorem custom_element_runs_at_most_once (e : ElemRef) (s : State)
  (acts : list Action) :
  custom_unit e Idle s ->
  length (runs e (trace (run_actions acts s))) <= 1
  /\ length (resolutions e (trace (run_actions acts s))) <= 1
  /\ (executed (elem (run_actions acts s) e) = true ->
      step (run_actions acts s) (Connect e) = run_actions acts s)
  /\ executed (elem (step (run_actions acts s) (Connect e)) e) = true.
Proof.
  intros Hu. destruct (run_actions_custom e acts Idle s Hu) as [st Hst].
  set (final := run_actions acts s) in *.
  pose proof (connect_custom e st final Hst) as (_ & _ & Hconnect).
  destruct Hst as (Hal & Hjobs & el & Hel & Hscript & Hstage).
  rewrite runs_lifecycle, resolutions_lifecycle, (elem_lookup _ _ _ Hel).
  destruct (stage_runs_once e st el _ Hstage) as [Hruns Hres].
  split; [done|]. split; [done|].
  destruct st as [|a|w a code]; simpl in Hstage.
  - destruct Hstage as (Hx & _ & _). split; [congruence|].
    destruct Hconnect as [[_ [a (_ & _ & el' & Hel' & _ & Hx' & _)]]
                         |(w & a & code & _ & (_ & _ & el' & Hel' & _ & Hx' & _))];
      by rewrite (elem_lookup _ _ _ Hel').
  - rewrite Hconnect, (elem_lookup _ _ _ Hel). destruct Hstage as (Hx & _). done.
  - rewrite Hconnect, (elem_lookup _ _ _ Hel). destruct Hstage as (Hx & _). done.
Qed.

(** ** The order of a unit's checkpoints *)

(** The checkpoints of the spec's state machine that [core.js] itself
    passes ([defined] is where a unit starts). *)
Inductive Phase :=
| PAttached
| PSourceResolved
| PReadyDispatched
| PExecuting
| PDoneDispatched.

#[global] Instance Phase_eq_dec : EqDecision Phase.
Proof. solve_decision. Defined.

Definition phase_of (ev : Event) : option Phase :=
  match ev with
  | Attached _ => Some PAttached
  | Resolved _ _ => Some PSourceResolved
  | Dispatch _ _ what =>
      if bool_decide (what = "ready") then Some PReadyDispatched
      else if bool_decide (what = "done") then Some PDoneDispatched
      else None
  | Run _ _ _ _ => Some PExecuting
  | _ => None
  end.

(** The checkpoints a unit has passed, in the order it passed them. *)
Definition phases (e : ElemRef) (tr : list Event) : list Phase :=
  omap phase_of (lifecycle e tr).

(** The order for a custom element, and the order for a script. *)
Definition custom_order : list Phase :=
  [PAttached; PSourceResolved; PReadyDispatched; PExecuting; PDoneDispatched].

Definition script_order : list Phase :=
  [PReadyDispatched; PSourceResolved; PExecuting; PDoneDispatched].

Lemma script_step_other e s a :
  is_ready e a = false -> script_unit e s ->
  script_unit e (step s a) /\ lifecycle e (trace (step s a)) = lifecycle e (trace s).
Proof.
  intros Ha Hu. destruct (not_ready_cases e a Ha) as [Hnt| ->].
  - destruct (script_unit_framed e s a Hnt Hu) as (Hu' & Hl' & _). done.
  - by rewrite (connect_script e s Hu).
Qed.

Lemma script_run_other e acts : forall s,
  readies e acts = 0 -> script_unit e s ->
  script_unit e (run_actions acts s)
  /\ lifecycle e (trace (run_actions acts s)) = lifecycle e (trace s).
Proof.
  unfold run_actions, readies.
  induction acts as [|a acts IH]; intros s Hr Hu; simpl; [done|].
  simpl in Hr. destruct (is_ready e a) eqn:Ha; [done|].
  destruct (script_step_other e s a Ha Hu) as [Hu' Hl'].
  destruct (IH (step s a) Hr Hu') as [Hu'' Hl'']. split; [done|congruence].
Qed.

(** A script unit readied at most once has done nothing or lived its life. *)
Lemma script_run e acts : forall s,
  readies e acts <= 1 -> script_unit e s -> lifecycle e (trace s) = [] ->
  script_unit e (run_actions acts s)
  /\ (lifecycle e (trace (run_actions acts s)) = []
      \/ exists w a code, lifecycle e (trace (run_actions acts s)) = script_life w e a code).
Proof.
  induction acts as [|a acts IH]; intros s Hr Hu Hlife; [by split; [|left]|].
  change (run_actions (a :: acts) s) with (run_actions acts (step s a)).
  unfold readies in Hr. simpl in Hr. destruct (is_ready e a) eqn:Ha.
  - destruct (is_ready_true e a Ha) as [wrap ->]. simpl in Hr.
    assert (readies e acts = 0) as Hr0 by (unfold readies; lia).
    destruct (ready_script e s wrap Hu) as (Hu' & Hcases).
    destruct (script_run_other e acts _ Hr0 Hu') as [Hu'' Hl''].
    split; [done|]. rewrite Hl''.
    destruct Hcases as [[Hl' _]|(_ & _ & a & code & Hl')].
    + left. congruence.
    + right. exists wrap, a, code. by rewrite Hl', Hlife.
  - destruct (script_step_other e s a Ha Hu) as [Hu' Hl'].
    apply IH; [done|done|congruence].
Qed.

Lemma phases_custom_life w e a code :
  omap phase_of (custom_life w e a code) `prefix_of` custom_order.
Proof.
  unfold custom_life, done_trace, custom_order.
  destruct (run_outcome w a code); simpl.
  - by exists [].
  - by exists [PDoneDispatched].
  - by exists [PDoneDispatched].
Qed.

Lemma phases_script_life w e a code :
  omap phase_of (script_life w e a code) `prefix_of` script_order.
Proof.
  unfold script_life, done_trace, script_order.
  destruct (run_outcome w a code); simpl.
  - by exists [].
  - by exists [PDoneDispatched].
  - by exists [PDoneDispatched].
Qed.

(** C9 as the code has it.  A custom element, from its construction on
    and under any schedule, passes its checkpoints in the order attached,
    source-resolved, ready-dispatched, executing, done-dispatched.  A script
    that has done nothing yet and is readied at most once passes them in
    the order ready-dispatched, source-resolved, executing,
    done-dispatched: "ready" is dispatched on it before its source is
    resolved. *)
Theorem checkpoints_in_code_order (e : ElemRef) (s : State) (acts : list Action) :
  (script_unit e s /\ lifecycle e (trace s) = [] /\ readies e acts <= 1)
  \/ custom_unit e Idle s ->
  phases e (trace (run_actions acts s))
    `prefix_of` (if isScript (elem s e) then script_order else custom_order).
Proof.
  intros [(Hu & Hlife & Hr)|Hu]; unfold phases.
  - destruct (script_run e acts s Hr Hu Hlife) as (_ & [-> | (w & a & code & ->)]).
    + apply prefix_nil.
    + destruct Hu as (_ & _ & el & Hel & Hscript & _).
      rewrite (elem_lookup _ _ _ Hel), Hscript.
      apply phases_script_life.
  - destruct (run_actions_custom e acts Idle s Hu) as [st (_ & _ & el & _ & _ & Hst)].
    destruct Hu as (_ & _ & el0 & Hel0 & Hscript & _).
    rewrite (elem_lookup _ _ _ Hel0), Hscript.
    destruct st as [|a|w a code]; simpl in Hst.
    + destruct Hst as (_ & _ & ->). apply prefix_nil.
    + destruct Hst as (_ & _ & ->). simpl. by exists (tail custom_order).
    + destruct Hst as (_ & _ & ->). apply phases_custom_life.
Qed.

(** ** The display target of a script unit *)

(** The identifiers [getID] hands out. *)
Definition id_of (prefix : string) (n : nat) : string := prefix +:+ "-" +:+ pretty n.

Lemma append_inj (p a b : string) : p +:+ a = p +:+ b -> a = b.
Proof.
  induction p as [|x p IH]; [done|].
  change (String x (p +:+ a) = String x (p +:+ b) -> a = b).
  intros H. injection H as H. by apply IH.
Qed.

(** Two calls of [getID] never give the same identifier. *)
Lemma id_of_inj prefix n m : id_of prefix n = id_of prefix m -> n = m.
Proof.
  unfold id_of. intros H. apply append_inj, append_inj in H.
  by apply (inj pretty) in H.
Qed.


(** What [defineProperty] does to the element it finds: it writes the
    property the first time, keeps it when asked for the value it has, and
    throws when asked for another. *)
Lemma define_target_eq element show el s :
  nodes s !! element = Some el ->
  define_target element show s
  = match target el with
    | None => (with_nodes (alter (set_target (Some show)) element (nodes s)) s, Ok tt)
    | Some known =>
        if decide (known = show) then (s, Ok tt)
        else (s, Throw (TypeError "Cannot redefine property: target"))
    end.
Proof.
  intros Hel. unfold define_target, bind, get_elem, gets.
  rewrite (elem_lookup _ _ _ Hel).
  destruct (target el) as [known|]; [|reflexivity].
  destruct (decide (known = show)); reflexivity.
Qed.

(** The page once the new display element is made, placed and named, and
    before line 233. *)
Definition placed (e : ElemRef) (s : State) : State :=
  with_nodes
    (alter (set_dom_id (id_of TYPE (id_counter s))) (fresh s)
       (<[fresh s := blank "script-py"]> (nodes s)))
    (with_id_counter (S (id_counter s))
       (with_doc_body
          (if bool_decide (e ∈ doc_head s) then doc_body s ++ [fresh s]
           else insert_after e (fresh s) (doc_body s))
          (with_fresh (S (fresh s)) s))).

Lemma display_target_placed e el s :
  truthy (attr_target el) = false ->
  display_target e el s = (define_target e (fresh s) ;; ret (fresh s)) (placed e s).
Proof.
  intros Ht. unfold display_target. rewrite Ht.
  unfold bind at 1 2 3 4 5.
  unfold createElement, gets, modify, ret, head_contains, body_append, after,
    read_id, write_id, getID, get_elem, update_elem, gets, modify, bind, ret, id_of,
    placed.
  simpl. destruct (bool_decide (e ∈ doc_head s)); simpl.
  - unfold elem. simpl. rewrite lookup_insert_eq. simpl. reflexivity.
  - unfold elem. simpl. rewrite lookup_insert_eq. simpl. reflexivity.
Qed.

Lemma placed_unit e el s :
  allocated s -> nodes s !! e = Some el -> nodes (placed e s) !! e = Some el.
Proof.
  intros Hal Hel. unfold placed. simpl.
  assert (fresh s <> e) as Hne.
  { intros Heq. rewrite <- Heq, (Hal (fresh s)) in Hel by lia. done. }
  by rewrite lookup_alter_ne, lookup_insert_ne.
Qed.

(** The unit that has no [target] yet gets the new element as its target. *)
Lemma display_target_synthesized e el s :
  allocated s -> nodes s !! e = Some el -> truthy (attr_target el) = false ->
  target el = None ->
  display_target e el s
  = (with_nodes (alter (set_target (Some (fresh s))) e (nodes (placed e s))) (placed e s),
     Ok (fresh s)).
Proof.
  intros Hal Hel Ht Hnone. rewrite (display_target_placed e el s Ht).
  unfold bind. rewrite (define_target_eq e (fresh s) el (placed e s));
    [|by apply placed_unit].
  by rewrite Hnone.
Qed.










(** ** Loading the module twice *)

Lemma setup_loop_live types exported p : setup_loop true types exported p = (p, Ok tt).
Proof. by destruct types as [|[type interpreter] rest]. Qed.

Lemma flavor_setup_global type interpreter exported g :
  preserves (fun p => global p = g) (flavor_setup type interpreter exported).
Proof.
  unfold flavor_setup, setup_event, structuredClone.
  repeat first [ keep_step | progress simpl | assumption | done ].
Qed.

Lemma setup_loop_global live types exported g :
  preserves (fun p => global p = g) (setup_loop live types exported).
Proof.
  induction types as [|[type interpreter] rest IH]; simpl.
  - apply preserves_ret.
  - destruct live; [apply preserves_ret|].
    apply preserves_bind; [apply flavor_setup_global | intros _; exact IH].
Qed.

(** What the first evaluation of the module puts in the slot. *)
Definition own_exports (imports : Imports) (base : nat) : Exports :=
  let ctors := imap (fun i t => mkCtor (base + i) (fst t) (snd t)) TYPES in
  mkExports (ctors !! 0) (ctors !! 1) (imported_hooks imports) (base + length TYPES)
    (imported_whenDefined imports).

Lemma load_first imports p :
  global p !! "@pyscript/core" = None ->
  global (fst (load imports p)) !! "@pyscript/core" = Some (own_exports imports (heap p))
  /\ forall inst, snd (load imports p) = Ok inst ->
       inst = mkInstance (own_exports imports (heap p)) false ∅.
Proof.
  intros Hnone. unfold load, bind, gets, modify, stickyModule. simpl.
  rewrite Hnone. simpl.
  match goal with |- context [setup_loop false TYPES ?x ?p1] =>
    pose proof (setup_loop_global false TYPES x (global p1) p1 eq_refl) as Hg;
    destruct (setup_loop false TYPES x p1) as [p2 [[]|err]]
  end; simpl in *; rewrite Hg, lookup_insert_eq; (split; [done|]).
  - intros inst H. by injection H as <-.
  - done.
Qed.

Lemma load_again imports p known :
  global p !! "@pyscript/core" = Some known ->
  snd (load imports p) = Ok (mkInstance known true ∅)
  /\ setup_log (fst (load imports p)) = setup_log p
  /\ objects (fst (load imports p)) = objects p
  /\ global (fst (load imports p)) = global p.
Proof.
  intros Hsome. unfold load, bind, gets, modify, stickyModule. simpl.
  rewrite Hsome. rewrite setup_loop_live. done.
Qed.

(** C5.  The module is evaluated on a page where it has not been before,
    and then once more.  The second evaluation ends with the very exports
    the first one registered (the worker constructors, the hook table, the
    config map and [whenDefined], each the same object), it is [alreadyLive],
    and it adds nothing to the setup of the page: no [plugins()] call, no
    hook table, no [define], no custom element, no exported config. *)
Theorem second_load_adopts_first_exports (first second : Imports) (p : Page) :
  global p !! "@pyscript/core" = None ->
  (forall inst, snd (load first p) = Ok inst ->
     exports inst = own_exports first (heap p) /\ alreadyLive inst = false)
  /\ snd (load second (fst (load first p)))
     = Ok (mkInstance (own_exports first (heap p)) true ∅)
  /\ setup_log (fst (load second (fst (load first p)))) = setup_log (fst (load first p))
  /\ objects (fst (load second (fst (load first p)))) = objects (fst (load first p))
  /\ global (fst (load second (fst (load first p)))) = global (fst (load first p)).
Proof.
  intros Hnone. destruct (load_first first p Hnone) as [Hslot Hinst].
  split; [|by apply load_again].
  intros inst Hok. by rewrite (Hinst inst Hok).
Qed.

(** ** The worker constructors *)

(** Where the module's own setup went through, [plugins] is a function:
    line 189 calls it. *)
Lemma flavor_setup_callable type interpreter exported cfg p p' :
  configs !! type = Some cfg -> error cfg = None ->
  flavor_setup type interpreter exported p = (p', Ok tt) ->
  exists q, plugins cfg = VFunction q
            /\ (PluginsThen q type interpreter ∈ setup_log p').
Proof.
  intros Hcfg Herr.
  unfold flavor_setup, structuredClone, bind, ret, throw, setup_event, modify.
  rewrite Hcfg, Herr. simpl.
  destruct (plugins cfg) as [|str|q|q]; simpl; try done.
  destruct (forallb _ _); simpl; [|done].
  intros [= <-]. exists q. split; [done|]. simpl.
  rewrite elem_of_app. right. apply list_elem_of_here.
Qed.

(** The worker [PyScriptWorker] makes. *)
Definition spawned_worker (type interpreter : string) (hooked : gmap string nat)
  (file : string) (options : option (gmap string JsValue)) (p : Page) : XWorkerObj :=
  mkXWorker (hooked !! type) file (<["type" := VString interpreter]> (default ∅ options))
    (assign xworker_sync sync) (S (heap p)).

Lemma PyScriptWorker_continues type interpreter hooked file options cfg p :
  configs !! type = Some cfg -> await (plugins cfg) p = Continue ->
  snd (PyScriptWorker type interpreter hooked file options p) = Returned (S (heap p))
  /\ xworkers (fst (PyScriptWorker type interpreter hooked file options p)) !! heap p
     = Some (spawned_worker type interpreter hooked file options p).
Proof.
  intros Hcfg Hawait. unfold PyScriptWorker. rewrite Hcfg, Hawait.
  unfold XWorker_call, spawned_worker. simpl.
  by rewrite lookup_alter_eq, lookup_insert_eq.
Qed.

(** C8 as the code has it.  For a flavour whose setup went through:
    [configs.get(TYPE).plugins] is the function that line 189 calls, not the
    promise its call returns, so [await configs.get(TYPE).plugins] waits for
    nothing.  With the plugins' promise still pending, where awaiting it
    would suspend the call, the worker is made all the same: with the hooks
    [hooked] holds for the flavour at that time, the caller's options under
    [type: interpreter], and [sync] assigned over its [sync]; and the call
    returns the worker's [ready] promise. *)
Theorem worker_spawns_without_waiting_for_plugins
  (type interpreter : string) (exported : Exports) (cfg : Config) (p0 p0' : Page)
  (hooked : gmap string nat) (file : string) (options : option (gmap string JsValue))
  (p : Page) :
  configs !! type = Some cfg -> error cfg = None ->
  flavor_setup type interpreter exported p0 = (p0', Ok tt) ->
  exists q,
    plugins cfg = VFunction q
    /\ (PluginsThen q type interpreter ∈ setup_log p0')
    /\ (promises p !! q = None -> await (VPromise q) p = Suspend)
    /\ snd (PyScriptWorker type interpreter hooked file options p)
       = Returned (S (heap p))
    /\ xworkers (fst (PyScriptWorker type interpreter hooked file options p)) !! heap p
       = Some (spawned_worker type interpreter hooked file options p).
Proof.
  intros Hcfg Herr Hsetup.
  destruct (flavor_setup_callable _ _ _ _ _ _ Hcfg Herr Hsetup) as (q & Hq & Hthen).
  exists q. split; [done|]. split; [done|]. split.
  - intros Hpending. unfold await. by rewrite Hpending.
  - apply (PyScriptWorker_continues _ _ _ _ _ cfg); [done|]. by rewrite Hq.
Qed.

(** Had [plugins] been the promise, the call would wait for it. *)
Lemma PyScriptWorker_waits_for_a_promise type interpreter hooked file options cfg q p :
  configs !! type = Some cfg -> plugins cfg = VPromise q -> promises p !! q = None ->
  PyScriptWorker type interpreter hooked file options p = (p, Suspended).
Proof.
  intros Hcfg Hq Hpending. unfold PyScriptWorker, await. by rewrite Hcfg, Hq, Hpending.
Qed.

(** * Further properties of the code *)

(** ** [fetchSource] on all its paths *)

Definition is_fetch (ev : Event) : bool :=
  match ev with
  | Fetch _ => true
  | _ => false
  end.

(** The requests a trace holds. *)
Definition requests (tr : list Event) : list Event := List.filter is_fetch tr.

(** X1.  A source that the network serves is what [fetchSource] resolves to:
    nothing goes to [io.stderr], the inline content is not read, and the
    unsafe path does not warn. *)
Theorem fetchSource_served_source_wins (tag : ElemRef) (channel : nat)
  (asText : bool) (s : State) (url text : string) :
  attr_src (elem s tag) = Some url -> network url = inr text ->
  fetchSource tag channel asText s
  = (with_trace (trace s ++ [Fetch url; Resolved tag text]) s, Ok text).
Proof.
  intros Hsrc Hnet. rewrite fetchSource_eq. unfold fetch_trace, source_of.
  rewrite Hsrc, Hnet. reflexivity.
Qed.

(** X2.  [fetchSource] never throws and changes nothing but the trace; it makes
    a request exactly when the element has a [src] attribute, and one
    request at most; it writes to [io.stderr] only the error of a failed
    request; and the last thing it does is resolve. *)
Theorem fetchSource_never_throws (tag : ElemRef) (channel : nat) (asText : bool)
  (s : State) :
  exists code added,
    fetchSource tag channel asText s = (with_trace (trace s ++ added) s, Ok code)
    /\ requests added = match attr_src (elem s tag) with
                        | Some url => [Fetch url]
                        | None => []
                        end
    /\ stderr_log added
       = match attr_src (elem s tag) with
         | Some url =>
             match network url with
             | inl failure => [Stderr channel (ErrorObject failure)]
             | inr _ => []
             end
         | None => []
         end
    /\ last added = Some (Resolved tag code).
Proof.
  exists (source_of asText (elem s tag)),
    (fetch_trace channel asText (elem s tag)
       ++ [Resolved tag (source_of asText (elem s tag))]).
  split; [apply fetchSource_eq|].
  unfold requests, stderr_log, fetch_trace, inline_trace.
  rewrite last_snoc, !List.filter_app.
  destruct (attr_src (elem s tag)) as [url|]; [destruct (network url)|];
    destruct asText; done.
Qed.

(** ** Identifiers *)

(** The counter of [getID] never goes back. *)
Definition counter_from (n : nat) (s : State) : Prop := n <= id_counter s.

Lemma getID_counter_from n prefix : preserves (counter_from n) (getID prefix).
Proof. intros s H. unfold counter_from in *. simpl. lia. Qed.

Ltac keep_counter :=
  unfold handle, invoke, onReady, onReady_body, onWorker, onBeforeRun, onBeforeRunAsync,
    onAfterRun, onAfterRunAsync, onerror, bootstrapNodeAndPlugins, exec_job,
    connectedCallback, connectedCallback_resume, resolve_wrap, construct,
    display_target, define_target, createElement, head_contains, body_append, after,
    call_awaited, call_dropped, call_run, dispatchDone, registerModule,
    fetchSource, fetch_text, read_id, write_id, get_elem, update_elem,
    dispatch, stderr, enqueue, emit;
  cbv zeta;
  repeat first
    [ apply getID_counter_from
    | keep_step
    | progress (unfold counter_from in *; simpl in * )
    | assumption ].

Lemma handle_counter_from n a : preserves (counter_from n) (handle a).
Proof.
  destruct a as [markup|this|c wrap x|error element]; [| |destruct c|]; keep_counter.
Qed.

Lemma exec_job_counter_from n j : preserves (counter_from n) (exec_job j).
Proof. destruct j; keep_counter. Qed.

Lemma run_actions_counter_from n acts s :
  counter_from n s -> counter_from n (run_actions acts s).
Proof.
  apply run_actions_preserves. intros s' a.
  apply step_preserves; [done | apply exec_job_counter_from | apply handle_counter_from].
Qed.

Lemma getID_eq prefix s :
  getID prefix s = (with_id_counter (S (id_counter s)) s, Ok (id_of prefix (id_counter s))).
Proof. reflexivity. Qed.

(** X3.  As long as the counter is below [2 ^ 53], where [id++] is exact,
    [getID] does not hand out the same identifier twice: whatever happens
    on the page after a call, a later call made with the counter still
    below [2 ^ 53] gives another one. *)
Theorem getID_never_repeats (prefix : string) (s : State) (acts : list Action) :
  id_counter (run_actions acts (fst (getID prefix s))) < 2 ^ 53 ->
  snd (getID prefix (run_actions acts (fst (getID prefix s))))
  <> snd (getID prefix s).
Proof.
  intros _. rewrite !getID_eq. simpl. intros [= H]. apply id_of_inj in H.
  pose proof (run_actions_counter_from (S (id_counter s)) acts
                (with_id_counter (S (id_counter s)) s)) as Hle.
  unfold counter_from in Hle. simpl in Hle. specialize (Hle (le_n _)). lia.
Qed.

Lemma id_of_not_empty prefix n : id_of prefix n <> "".
Proof. unfold id_of. by destruct prefix. Qed.

(** ** The [id] of a custom element *)

Lemma read_id_of_instance r el slot s :
  nodes s !! r = Some el -> _wrap el = Some slot ->
  read_id r s
  = if bool_decide (dom_id el = "") then
      (with_nodes (alter (set_dom_id (id_of TYPE (id_counter s))) r (nodes s))
         (with_id_counter (S (id_counter s)) s), Ok (id_of TYPE (id_counter s)))
    else (s, Ok (dom_id el)).
Proof.
  intros Hel Hslot. unfold read_id, bind, get_elem, gets.
  rewrite (elem_lookup _ _ _ Hel), Hslot. by case_bool_decide.
Qed.

(** X4.  Reading the [id] of an instance of the class always gives an
    identifier that is not empty, and gives it again at every later read:
    an element without one gets the next of [getID] at the first read, which
    is stored; an element with one keeps it, and the read changes nothing. *)
Theorem custom_element_id_is_stable (r : ElemRef) (el : Elem) (slot : WrapSlot)
  (s : State) :
  nodes s !! r = Some el -> _wrap el = Some slot ->
  exists i,
    snd (read_id r s) = Ok i
    /\ i <> ""
    /\ i = (if bool_decide (dom_id el = "") then id_of TYPE (id_counter s)
            else dom_id el)
    /\ dom_id (elem (fst (read_id r s)) r) = i
    /\ read_id r (fst (read_id r s)) = (fst (read_id r s), Ok i)
    /\ (dom_id el <> "" -> fst (read_id r s) = s).
Proof.
  intros Hel Hslot.
  set (i := id_of TYPE (id_counter s)).
  set (s1 := with_nodes (alter (set_dom_id i) r (nodes s))
               (with_id_counter (S (id_counter s)) s)).
  pose proof (read_id_of_instance r el slot s Hel Hslot) as Hread.
  fold i in Hread. fold s1 in Hread.
  rewrite Hread. case_bool_decide as Hid; simpl.
  - assert (nodes s1 !! r = Some (set_dom_id i el)) as Hel1.
    { simpl. by rewrite lookup_alter_eq, Hel. }
    exists i. split; [done|]. split; [apply id_of_not_empty|]. split; [done|].
    rewrite (elem_lookup _ _ _ Hel1). split; [done|]. split; [|done].
    unfold read_id, bind, get_elem, gets. rewrite (elem_lookup _ _ _ Hel1).
    change (_wrap (set_dom_id i el)) with (_wrap el). rewrite Hslot.
    change (dom_id (set_dom_id i el)) with i.
    by rewrite (bool_decide_eq_false_2 _ (id_of_not_empty TYPE (id_counter s))).
  - exists (dom_id el). rewrite (elem_lookup _ _ _ Hel).
    do 4 (split; [done|]). split; [|done].
    exact Hread.
Qed.

(** X5.  An [id] that is set is the [id] that is read, unless it is empty: then
    the next read makes a new one. *)
Theorem custom_element_id_set_then_read (r : ElemRef) (el : Elem) (slot : WrapSlot)
  (value : string) (s : State) :
  nodes s !! r = Some el -> _wrap el = Some slot ->
  snd (read_id r (fst (write_id r value s)))
  = Ok (if bool_decide (value = "") then id_of TYPE (id_counter s) else value).
Proof.
  intros Hel Hslot. unfold write_id, update_elem, modify. simpl.
  unfold read_id, bind, get_elem, gets, elem. simpl.
  rewrite lookup_alter_eq, Hel. simpl. rewrite Hslot.
  by case_bool_decide.
Qed.

(** ** The [target] of the registered module *)

(** X6.  Python code of a script that names no target and has none yet (it
    is at its first ready checkpoint) reads, as [_pyscript.target], the
    identifier given to the display element that [onReady] made for the
    script; the read changes nothing. *)
Theorem module_target_of_script (e : ElemRef) (el : Elem) (s : State) :
  allocated s -> nodes s !! e = Some el -> isScript el = true ->
  truthy (attr_target el) = false -> target el = None ->
  module_target (with_currentElement (Some e) (fst (display_target e el s)))
  = (with_currentElement (Some e) (fst (display_target e el s)),
     Ok (id_of TYPE (id_counter s))).
Proof.
  intros Hal Hel Hscript Ht Hnone.
  rewrite (display_target_synthesized e el s Hal Hel Ht Hnone). simpl.
  assert (fresh s <> e) as Hne.
  { intros Heq. rewrite <- Heq, (Hal (fresh s)) in Hel by lia. done. }
  match goal with |- module_target ?st = _ => set (s1 := st) end.
  assert (nodes s1 !! e = Some (set_target (Some (fresh s)) el)) as Hel1.
  { simpl. rewrite lookup_alter_eq, lookup_alter_ne, lookup_insert_ne, Hel by done. done. }
  assert (nodes s1 !! fresh s
          = Some (set_dom_id (id_of TYPE (id_counter s)) (blank "script-py"))) as Hshow.
  { simpl. rewrite lookup_alter_ne by done. by rewrite lookup_alter_eq, lookup_insert_eq. }
  assert (currentElement s1 = Some e) as Hcur by reflexivity.
  clearbody s1.
  unfold module_target, get_elem, bind, gets. rewrite Hcur.
  rewrite (elem_lookup _ _ _ Hel1).
  change (isScript (set_target (Some (fresh s)) el)) with (isScript el).
  rewrite Hscript.
  change (target (set_target (Some (fresh s)) el)) with (Some (fresh s)). cbv beta iota.
  unfold read_id, get_elem, bind, gets. by rewrite (elem_lookup _ _ _ Hshow).
Qed.

(** X7.  Python code of a custom element reads, as [_pyscript.target], the
    element's own [id]; an element without one is given the next identifier
    of [getID] by the read. *)
Theorem module_target_of_custom_element (e : ElemRef) (el : Elem) (slot : WrapSlot)
  (s : State) :
  currentElement s = Some e -> nodes s !! e = Some el -> isScript el = false ->
  _wrap el = Some slot ->
  snd (module_target s)
  = Ok (if bool_decide (dom_id el = "") then id_of TYPE (id_counter s) else dom_id el)
  /\ dom_id (elem (fst (module_target s)) e)
     = (if bool_decide (dom_id el = "") then id_of TYPE (id_counter s) else dom_id el).
Proof.
  intros Hcur Hel Hscript Hslot.
  unfold module_target, get_elem, bind, gets. rewrite Hcur.
  rewrite (elem_lookup _ _ _ Hel), Hscript.
  rewrite (read_id_of_instance e el slot s Hel Hslot).
  case_bool_decide; simpl.
  - split; [done|]. unfold elem. simpl. by rewrite lookup_alter_eq, Hel.
  - split; [done|]. by rewrite (elem_lookup _ _ _ Hel).
Qed.

(** X8.  [_pyscript.target] read when no unit is about to run, or for a script
    that has not come to its ready checkpoint, throws a [TypeError]. *)
Theorem module_target_needs_a_running_unit (s : State) :
  (currentElement s = None ->
   module_target s = (s, Throw (TypeError "currentElement is undefined")))
  /\ (forall e, currentElement s = Some e -> isScript (elem s e) = true ->
        target (elem s e) = None ->
        module_target s = (s, Throw (TypeError "currentElement.target is undefined"))).
Proof.
  split.
  - intros Hcur. unfold module_target, bind, gets. by rewrite Hcur.
  - intros e Hcur Hscript Ht. unfold module_target, get_elem, bind, gets.
    by rewrite Hcur, Hscript, Ht.
Qed.

(** ** A plugin that throws at the ready checkpoint *)

(** The error of the first callback of the chain that throws or rejects. *)
Fixpoint chain_error (a : option Wrap) (b : nat) (cbs : list Callback) (w : W)
  : option JsError :=
  match cbs with
  | [] => None
  | cb :: rest =>
      match snd (run_callback a b cb w) with
      | Normal => chain_error a b rest (fst (run_callback a b cb w))
      | Abrupt err => Some err
      end
  end.

Lemma call_awaited_trace hook a b cb s :
  trace (fst (call_awaited hook a b cb s))
  = trace s ++ [CbCall hook (cb_name cb);
                CbSettle hook (cb_name cb) (snd (run_callback a b cb (pw s)))].
Proof.
  unfold call_awaited, bind, emit, modify, run_plugin, ret, throw, run_callback.
  destruct cb as [name body|name pre post]; simpl.
  - destruct (body a b (pw s)) as [w [|e]]; simpl; by rewrite <- app_assoc.
  - destruct (post a b (pre a b (pw s))) as [w [|e]]; simpl; by rewrite <- app_assoc.
Qed.

(** The awaited loop ends at the first callback that throws: with its
    error, and with nothing done after it. *)
Lemma awaited_loop_throws hook a b cbs : forall s err,
  chain_error a b cbs (pw s) = Some err ->
  snd (for_of cbs (call_awaited hook a b) s) = Throw err
  /\ exists name,
       (name ∈ cb_name <$> cbs)
       /\ last (trace (fst (for_of cbs (call_awaited hook a b) s)))
          = Some (CbSettle hook name (Abrupt err)).
Proof.
  induction cbs as [|cb cbs IH]; intros s err Hc; simpl in *; [done|].
  destruct (call_awaited_result hook a b cb s) as [Hpw Hres].
  pose proof (call_awaited_trace hook a b cb s) as Htrace.
  unfold bind. destruct (call_awaited hook a b cb s) as [s1 r]. simpl in *.
  destruct (snd (run_callback a b cb (pw s))) as [|err0]; subst r.
  - rewrite <- Hpw in Hc. destruct (IH s1 err Hc) as (Hthrow & name & Hin & Hlast).
    split; [done|]. exists name. split; [by apply list_elem_of_further | done].
  - injection Hc as <-. split; [done|]. exists (cb_name cb).
    split; [apply list_elem_of_here|]. simpl. rewrite Htrace.
    change [CbCall hook (cb_name cb); CbSettle hook (cb_name cb) (Abrupt err0)]
      with ([CbCall hook (cb_name cb)] ++ [CbSettle hook (cb_name cb) (Abrupt err0)]).
    rewrite app_assoc. apply last_snoc.
Qed.

(** X9.  When one of the plugins' [onReady] callbacks throws or rejects,
    [onReady] rejects with the error of the first one that does, and stops
    there: the end of that callback is the last thing the checkpoint did,
    so the ledger is not looked at (it is as it was) and nothing of
    [onReady] past line 203 is run.  The module has been registered all the
    same. *)
Theorem throwing_plugin_aborts_ready (wrap : Wrap) (e : ElemRef) (s : State)
  (err : JsError) :
  chain_error (Some wrap) e (main "onReady") (pw s) = Some err -> jobs s = [] ->
  snd (onReady wrap e s) = Throw err
  /\ (exists name,
        (name ∈ cb_name <$> main "onReady")
        /\ last (trace (step s (Invoke OnReady wrap e)))
           = Some (CbSettle "onReady" name (Abrupt err)))
  /\ errors (step s (Invoke OnReady wrap e)) = errors s
  /\ alreadyRegistered (step s (Invoke OnReady wrap e)) = true.
Proof.
  intros Hc Hjobs.
  pose proof (onReady_sets_flag wrap e s) as Hflag.
  assert (exists s1 name, onReady wrap e s = (s1, Throw err) /\ plugins_ran s s1
            /\ (name ∈ cb_name <$> main "onReady")
            /\ last (trace s1) = Some (CbSettle "onReady" name (Abrupt err)))
    as (s1 & name & Hthrow & Hp & Hin & Hlast).
  { unfold onReady.
    pose proof (registerModule_plugins_ran wrap s) as H0.
    pose proof (registerModule_ok wrap s) as Hok.
    pose proof (registerModule_pw wrap s) as Hpw.
    destruct (registerModule wrap s) as [s0 r0] eqn:E0. simpl in H0, Hok, Hpw. subst r0.
    rewrite (bind_ok _ _ _ _ _ E0). rewrite <- Hpw in Hc.
    pose proof (awaited_loop_plugins_ran "onReady" (Some wrap) e (main "onReady") s0) as H1.
    destruct (awaited_loop_throws "onReady" (Some wrap) e (main "onReady") s0 err Hc)
      as (H2 & name & Hin & Hlast).
    destruct (for_of (main "onReady") (call_awaited "onReady" (Some wrap) e) s0)
      as [s1 r1] eqn:E1. simpl in H1, H2, Hlast. subst r1.
    rewrite (bind_throw _ _ _ _ _ E1).
    exists s1, name. split; [done|]. split; [by eapply plugins_ran_trans | done]. }
  rewrite Hthrow in Hflag. simpl in Hflag.
  split; [by rewrite Hthrow|].
  assert (step s (Invoke OnReady wrap e) = s1) as ->.
  { unfold step, handle, invoke. rewrite Hthrow. simpl. apply settle_idle.
    destruct Hp as [(_ & _ & _ & _ & _ & _ & _ & _ & Hj) _]. by rewrite Hj. }
  split; [by exists name|]. split; [apply Hp | done].
Qed.

(** ** Whose interpreter the module is registered on *)

(** The registrations a trace holds. *)
Definition registered (tr : list Event) : list Event := List.filter is_registration tr.

(** The flag is set and the registrations are [l]. *)
Definition registered_as (l : list Event) (s : State) : Prop :=
  alreadyRegistered s = true /\ registered (trace s) = l.

Lemma registered_snoc_other tr ev :
  is_registration ev = false -> registered (tr ++ [ev]) = registered tr.
Proof. intros H. unfold registered. rewrite List.filter_app. simpl. by rewrite H, app_nil_r. Qed.

Ltac keep_registered :=
  unfold handle, invoke, onReady, onReady_body, onWorker, onBeforeRun, onBeforeRunAsync,
    onAfterRun, onAfterRunAsync, onerror, bootstrapNodeAndPlugins, exec_job,
    connectedCallback, connectedCallback_resume, resolve_wrap, construct,
    display_target, define_target, createElement, head_contains, body_append, after,
    call_awaited, call_dropped, call_run, dispatchDone, module_target,
    fetchSource, fetch_text, read_id, write_id, getID, get_elem, update_elem,
    dispatch, stderr, enqueue, emit;
  cbv zeta;
  repeat first
    [ lazymatch goal with
      | |- preserves _ (registerModule _) =>
          let s := fresh "s" in
          let Hflag := fresh "Hflag" in
          let Hl := fresh "Hl" in
          intros s [Hflag Hl]; unfold registerModule, bind, gets; simpl;
          rewrite Hflag; simpl; done
      end
    | keep_step
    | progress (unfold registered_as in *; simpl;
                rewrite ?registered_snoc_other by reflexivity)
    | assumption ].

Lemma handle_registered_as l a : preserves (registered_as l) (handle a).
Proof.
  destruct a as [markup|this|c wrap x|error element]; [| |destruct c|]; keep_registered.
Qed.

Lemma exec_job_registered_as l j : preserves (registered_as l) (exec_job j).
Proof. destruct j; keep_registered. Qed.

Lemma run_actions_registered_as l acts s :
  registered_as l s -> registered_as l (run_actions acts s).
Proof.
  apply run_actions_preserves. intros s' a.
  apply step_preserves; [done | apply exec_job_registered_as | apply handle_registered_as].
Qed.

(** X10.  The [_pyscript] module is registered on the interpreter of the wrap
    that comes first to a ready checkpoint, and on no other: a later
    [onReady] with the wrap of another interpreter registers nothing
    there. *)
Theorem module_registered_on_first_interpreter (s0 : State) (wrap : Wrap)
  (x : nat) (acts : list Action) :
  alreadyRegistered s0 = false -> registered (trace s0) = [] ->
  registered (trace (run_actions (Invoke OnReady wrap x :: acts) s0))
  = [RegisterJsModule (interpreter wrap) "_pyscript"
       ["PyWorker"; "fs"; "interpreter"; "js_import"; "target"]].
Proof.
  intros Hflag Hnone.
  change (run_actions (Invoke OnReady wrap x :: acts) s0)
    with (run_actions acts (step s0 (Invoke OnReady wrap x))).
  apply run_actions_registered_as.
  unfold step, settle.
  apply (drain_preserves (registered_as _)); [done | apply exec_job_registered_as |].
  unfold handle, invoke, onReady.
  assert (registerModule wrap s0
          = (with_trace (trace s0 ++ [RegisterJsModule (interpreter wrap) "_pyscript"
                                        ["PyWorker"; "fs"; "interpreter"; "js_import";
                                         "target"]])
               (with_alreadyRegistered true s0), Ok tt)) as Hreg.
  { unfold registerModule, bind, gets. by rewrite Hflag. }
  rewrite (bind_ok _ _ _ _ _ Hreg).
  match goal with |- registered_as ?l (fst (?k ?st)) =>
    assert (preserves (registered_as l) k) as Hk by keep_registered;
    apply Hk
  end.
  split; [done|]. simpl. unfold registered in *.
  by rewrite List.filter_app, Hnone.
Qed.

(** ** The wrap of a custom element *)

(** An [onReady] for an element whose wrap was delivered leaves the element
    as it is: [resolve] of a fulfilled promise changes nothing. *)
Lemma ready_settled e st s w wrap :
  custom_unit e st s -> _wrap (elem s e) = Some (Settled w) ->
  custom_unit e st (step s (Invoke OnReady wrap e))
  /\ _wrap (elem (step s (Invoke OnReady wrap e)) e) = Some (Settled w).
Proof.
  intros Hu Hw. unfold step, handle, invoke.
  destruct (onReady_split wrap e s) as (s1 & Hp & Hcases).
  pose proof (plugins_ran_custom_unit e st s s1 Hp Hu) as Hu1.
  pose proof (plugins_ran_elem e _ _ Hp) as Helem. rewrite <- Helem in Hw.
  clear Hu Hp Helem.
  destruct Hcases as [[err Hthrow]|Hbody].
  { rewrite Hthrow. simpl. rewrite settle_idle by apply Hu1. done. }
  rewrite Hbody. destruct Hu1 as (Hal & Hjobs & el & Hel & Hscript & Hst).
  rewrite (elem_lookup _ _ _ Hel) in Hw.
  destruct (errors s1 !! e) as [err|] eqn:He.
  - rewrite (onReady_body_consumes wrap e s1 err He). simpl.
    rewrite settle_idle by done. split.
    + split; [done|]. split; [done|]. exists el. simpl.
      rewrite lifecycle_app. simpl. rewrite app_nil_r. done.
    + unfold elem. simpl. by rewrite Hel.
  - rewrite (onReady_body_settled wrap e s1 el w) by done. simpl.
    rewrite settle_idle by done. split.
    + split; [done|]. split; [done|]. exists el. simpl.
      rewrite lifecycle_app. simpl. rewrite app_nil_r. done.
    + unfold elem. simpl. by rewrite Hel.
Qed.

(** The element is at one of its stages and holds the wrap [w]. *)
Definition holds_wrap (e : ElemRef) (w : Wrap) (s : State) : Prop :=
  exists st, custom_unit e st s /\ _wrap (elem s e) = Some (Settled w).

Lemma step_holds_wrap e w s a : holds_wrap e w s -> holds_wrap e w (step s a).
Proof.
  intros (st & Hu & Hw). destruct (is_ready e a) eqn:Ha.
  - destruct (is_ready_true e a Ha) as [wrap ->].
    exists st. by apply ready_settled.
  - destruct (not_ready_cases e a Ha) as [Hnt| ->].
    + exists st. destruct (custom_unit_framed e st s a Hnt Hu) as (Hu' & _ & Hw').
      split; [done|congruence].
    + destruct (connect_custom e st s Hu) as (_ & _ & Hst).
      destruct st as [|a|w' a code].
      * destruct Hst as [[Hno _]|(w' & a & code & Hw' & Hu')]; [congruence|].
        exists (Ran w' a code). split; [done|].
        destruct Hu' as (_ & _ & el & Hel & _ & _ & Hslot & _).
        rewrite (elem_lookup _ _ _ Hel). congruence.
      * rewrite Hst. by exists (Parked a).
      * rewrite Hst. by exists (Ran w' a code).
Qed.

(** X11.  A custom element runs with the wrap of its first [onReady]: once a wrap
    is delivered the element keeps it whatever happens on the page, a later
    [onReady] with another wrap included, and every run of the element is a
    run by that wrap. *)
Theorem custom_element_keeps_first_wrap (e : ElemRef) (st : Stage) (s : State)
  (w : Wrap) (acts : list Action) :
  custom_unit e st s -> _wrap (elem s e) = Some (Settled w) ->
  _wrap (elem (run_actions acts s) e) = Some (Settled w)
  /\ (forall a code r, (Run e a code r ∈ trace (run_actions acts s)) ->
        r = run_outcome w a code).
Proof.
  intros Hu Hw.
  assert (holds_wrap e w (run_actions acts s)) as (st' & Hu' & Hw').
  { apply (run_actions_preserves (holds_wrap e w)); [apply step_holds_wrap|].
    by exists st. }
  split; [done|]. intros a code r Hin.
  apply (proj1 (lifecycle_elem_of e _ _ (about_run e a code r))) in Hin.
  destruct Hu' as (_ & _ & el & Hel & _ & Hst).
  rewrite (elem_lookup _ _ _ Hel) in Hw'.
  destruct st' as [|a'|w' a' code']; simpl in Hst.
  - destruct Hst as (_ & _ & Hlife). rewrite Hlife in Hin. by apply elem_of_nil in Hin.
  - destruct Hst as (_ & Hslot & _). congruence.
  - destruct Hst as (_ & Hslot & Hlife). rewrite Hlife in Hin.
    assert (w' = w) as -> by congruence.
    unfold custom_life, done_trace in Hin.
    destruct (run_outcome w a' code') eqn:E; written_out; intuition congruence.
Qed.

(** ** What running leaves on a custom element *)

(** The element as [connectedCallback] leaves it once the wrap is in: its
    source in [srcCode], no children, shown as a block. *)
Definition shown (code : string) (el : Elem) : Elem :=
  set_display "block" (replaceChildren (set_srcCode code el)).

Lemma settle_resume_elem e isAsync wrap s el :
  jobs s = [Resume e isAsync wrap] -> nodes s !! e = Some el ->
  elem (settle s) e
  = shown (source_of (bool_decide (childElementCount el = 0)) el) el.
Proof.
  intros Hjobs Hel.
  destruct (settle_resume e isAsync wrap s Hjobs) as (_ & Hn & _).
  cbv zeta in Hn. rewrite (elem_lookup _ _ _ Hel) in Hn.
  unfold elem. rewrite Hn, !lookup_alter_eq, Hel. done.
Qed.


(** X13.  A custom element that is attached after its wrap arrived has the same
    on it after that [connectedCallback]. *)
Theorem attached_element_shows_its_source (e : ElemRef) (el : Elem) (w : Wrap)
  (s : State) :
  custom_unit e Idle s -> nodes s !! e = Some el -> _wrap el = Some (Settled w) ->
  srcCode (elem (step s (Connect e)) e)
  = source_of (bool_decide (childElementCount el = 0)) el
  /\ childElementCount (elem (step s (Connect e)) e) = 0
  /\ innerHTML (elem (step s (Connect e)) e) = ""
  /\ display (elem (step s (Connect e)) e) = "block"
  /\ executed (elem (step s (Connect e)) e) = true.
Proof.
  intros (_ & Hjobs & el0 & Hel0 & _ & Hx & _) Hel Hw.
  assert (el0 = el) as -> by congruence.
  assert (step s (Connect e)
          = settle (with_jobs [Resume e (negb (isSync el)) w]
                      (with_trace (trace s ++ [Attached e])
                         (with_nodes (alter (set_executed true) e (nodes s)) s)))) as ->.
  { unfold step, handle.
    unfold bind at 1. unfold get_elem at 1, gets at 1. cbv beta iota.
    rewrite (elem_lookup _ _ _ Hel), Hw.
    unfold connectedCallback, bind, get_elem, gets, update_elem, emit, enqueue, modify.
    rewrite (elem_lookup _ _ _ Hel), Hx, Hw. simpl. rewrite Hjobs. reflexivity. }
  erewrite settle_resume_elem; [|reflexivity|simpl; by rewrite lookup_alter_eq, Hel].
  done.
Qed.

(** ** [onWorker] and [async] callbacks *)






(** ** The setup of the flavours *)

(** What the loop does for one flavour: with a config in error, nothing;
    otherwise the call of [plugins] and the [then] on its promise. *)
Definition flavor_events (ti : string * string) : list PageEvent :=
  match configs !! ti.1 with
  | Some cfg =>
      match error cfg, plugins cfg with
      | None, VFunction q => [PluginsCall ti.1; PluginsThen q ti.1 ti.2]
      | _, _ => []
      end
  | None => []
  end.

(** The flavour has an entry in [configs]; the entry is in error or its
    [plugins] can be called; and its [config] is data that
    [structuredClone] can copy. *)
Definition well_configured (ti : string * string) : bool :=
  match configs !! ti.1 with
  | Some cfg =>
      match error cfg, plugins cfg with
      | Some _, _ | None, VFunction _ =>
          forallb (fun kv => cloneable kv.2) (map_to_list (config cfg))
      | _, _ => false
      end
  | None => false
  end.

(** The object a module exports as [config]. *)
Definition exported_config (exported : Exports) (p : Page) : gmap string (gmap string JsValue) :=
  default ∅ (objects p !! exportedConfig exported).

Lemma flavor_setup_eq type interpreter exported cfg p :
  configs !! type = Some cfg -> well_configured (type, interpreter) = true ->
  flavor_setup type interpreter exported p
  = (with_objects
       (<[exportedConfig exported := <[type := config cfg]> (exported_config exported p)]>
          (objects p))
       (with_setup_log (setup_log p ++ flavor_events (type, interpreter)) p), Ok tt).
Proof.
  intros Hcfg.
  unfold well_configured, flavor_events, flavor_setup, structuredClone, exported_config.
  simpl. rewrite Hcfg. unfold bind, ret, throw, setup_event, modify. simpl.
  destruct (error cfg) as [err|]; simpl.
  - intros ->. rewrite app_nil_r. by destruct p.
  - destruct (plugins cfg) as [|str|q|q]; simpl; try done.
    intros ->. by rewrite <- app_assoc.
Qed.

Lemma setup_loop_well_configured exported types : forall p,
  forallb well_configured types = true ->
  snd (setup_loop false types exported p) = Ok tt
  /\ setup_log (fst (setup_loop false types exported p))
     = setup_log p ++ flat_map flavor_events types
  /\ (forall t, exported_config exported (fst (setup_loop false types exported p)) !! t
                = match configs !! t with
                  | Some cfg =>
                      if bool_decide (t ∈ types.*1) then Some (config cfg)
                      else exported_config exported p !! t
                  | None => exported_config exported p !! t
                  end).
Proof using Type.
  clear -configs exported types.
  induction types as [|[type interpreter] rest IH]; intros p Hall; simpl in *.
  - rewrite app_nil_r. split; [done|]. split; [done|]. intros t.
    by destruct (configs !! t).
  - apply andb_prop in Hall as [Hhead Hrest].
    assert (exists cfg, configs !! type = Some cfg) as [cfg Hcfg].
    { unfold well_configured in Hhead. simpl in Hhead.
      destruct (configs !! type); [eauto|done]. }
    rewrite (bind_ok _ _ _ _ _ (flavor_setup_eq type interpreter exported cfg p Hcfg Hhead)).
    match goal with |- context [setup_loop false rest exported ?p1] =>
      destruct (IH p1 Hrest) as (Hok & Hlog & Hexp); set (p' := p1) in *
    end.
    split; [done|]. split; [rewrite Hlog; simpl; by rewrite <- app_assoc|].
    intros t. rewrite Hexp.
    assert (exported_config exported p' !! t
            = if bool_decide (t = type) then Some (config cfg)
              else exported_config exported p !! t) as ->.
    { unfold exported_config at 1. simpl. rewrite lookup_insert_eq. simpl.
      case_bool_decide as Ht; [subst; by rewrite lookup_insert_eq|].
      by rewrite lookup_insert_ne. }
    destruct (configs !! t) as [cfg'|] eqn:Ht.
    + repeat case_bool_decide; try done;
        repeat match goal with
               | H : _ ∈ _ :: _ |- _ => apply elem_of_cons in H
               | H : _ ∉ _ :: _ |- _ => apply not_elem_of_cons in H
               end;
        try (subst; congruence); exfalso; tauto.
    + case_bool_decide; [|done]. subst. congruence.
Qed.

(** X15.  The loop over the flavours, on a page where the module was not
    live and where every flavour is well configured: it has an entry in
    [configs], the entry is in error or has a [plugins] that can be called,
    and its [config] is data that [structuredClone] can copy.  The loop
    then ends normally; for each flavour in turn it calls [plugins] and
    waits for its promise, unless the flavour's config is in error, and
    then nothing is set up for that flavour; the exported [config] holds
    the config of every flavour, those in error included, and nothing else
    is written to it. *)
Theorem loop_sets_up_every_flavour (exported : Exports) (p : Page) :
  forallb well_configured TYPES = true ->
  snd (setup_loop false TYPES exported p) = Ok tt
  /\ setup_log (fst (setup_loop false TYPES exported p))
     = setup_log p ++ flat_map flavor_events TYPES
  /\ (forall type interpreter cfg,
        (type, interpreter) ∈ TYPES -> configs !! type = Some cfg ->
        exported_config exported (fst (setup_loop false TYPES exported p)) !! type
        = Some (config cfg))
  /\ (forall key, key ∉ TYPES.*1 ->
        exported_config exported (fst (setup_loop false TYPES exported p)) !! key
        = exported_config exported p !! key).
Proof using Type.
  intros Hall.
  destruct (setup_loop_well_configured exported TYPES p Hall) as (Hok & Hlog & Hexp).
  split; [done|]. split; [done|]. split.
  - intros type interpreter cfg Hin Hcfg. rewrite Hexp, Hcfg.
    rewrite bool_decide_eq_true_2; [done|].
    apply list_elem_of_fmap. by exists (type, interpreter).
  - intros key Hkey. rewrite Hexp. destruct (configs !! key); [|done].
    by rewrite bool_decide_eq_false_2.
Qed.

(** ** Workers made once the flavour is defined *)

(** X16.  When the plugins are in, the hook table of the flavour is made and
    stored, the flavour defined and its custom element registered; a worker
    constructor called from then on hands that hook table to the worker. *)
Theorem worker_after_define_gets_hooks (type interpreter : string)
  (hooked hooked' : gmap string nat) (cfg : Config) (q : nat) (p p' : Page)
  (file : string) (options : option (gmap string JsValue)) (later : Page) :
  flavor_define type interpreter hooked p = (p', Ok hooked') ->
  configs !! type = Some cfg -> plugins cfg = VFunction q ->
  hooked' !! type = Some (heap p)
  /\ setup_log p'
     = setup_log p ++ [HookedSet type (heap p); Define type interpreter;
                       CustomElementsDefine (type +:+ "-script")]
  /\ xw_hooks <$> (xworkers (fst (PyScriptWorker type interpreter hooked' file options
                                    later)) !! heap later)
     = Some (Some (heap p)).
Proof.
  intros Hdef Hcfg Hq.
  assert (hooked' = <[type := heap p]> hooked
          /\ setup_log p'
             = setup_log p ++ [HookedSet type (heap p); Define type interpreter;
                               CustomElementsDefine (type +:+ "-script")])
    as [-> Hlog].
  { revert Hdef. unfold flavor_define, bind, gets, modify, setup_event, ret, throw.
    simpl. case_bool_decide; [done|]. intros [= <- <-]. simpl.
    by rewrite <- !app_assoc. }
  split; [by rewrite lookup_insert_eq|]. split; [done|].
  destruct (PyScriptWorker_continues type interpreter (<[type := heap p]> hooked)
              file options cfg later Hcfg) as [_ Hworker].
  { by rewrite Hq. }
  rewrite Hworker. simpl. by rewrite lookup_insert_eq.
Qed.

(** ** Where the display element of a script goes *)






(** ** The options and the [sync] of a worker *)

(** X18.  The worker a constructor makes gets the caller's options, except that
    [type] is the flavour's interpreter whatever the caller said; and on its
    [sync] the entries of the module's [sync] object replace those of the
    same name, the others staying. *)
Theorem worker_options_and_sync (type interpreter : string)
  (hooked : gmap string nat) (file : string) (options : option (gmap string JsValue))
  (cfg : Config) (p : Page) :
  configs !! type = Some cfg -> await (plugins cfg) p = Continue ->
  exists worker,
    xworkers (fst (PyScriptWorker type interpreter hooked file options p)) !! heap p
    = Some worker
    /\ xw_file worker = file
    /\ xw_options worker !! "type" = Some (VString interpreter)
    /\ (forall k, k <> "type" -> xw_options worker !! k = default ∅ options !! k)
    /\ (forall k, xw_sync worker !! k
                  = match sync !! k with
                    | Some v => Some v
                    | None => xworker_sync !! k
                    end).
Proof.
  intros Hcfg Hawait.
  destruct (PyScriptWorker_continues type interpreter hooked file options cfg p
              Hcfg Hawait) as [_ Hworker].
  eexists. split; [exact Hworker|]. unfold spawned_worker. simpl.
  split; [done|]. split; [by rewrite lookup_insert_eq|]. split.
  - intros k Hk. by rewrite lookup_insert_ne.
  - intros k. unfold assign. rewrite lookup_union.
    destruct (sync !! k), (xworker_sync !! k); done.
Qed.

End Core.

(** * The properties at work on a page of the [py] flavour *)

(** The network serves [main.py] and nothing else. *)
Definition py_network (url : string) : JsError + string :=
  if bool_decide (url = "main.py") then inr "print(2)"
  else inl (mkError "404 Not Found").

(** [queryTarget] finds the first element of the document with the id. *)
Definition py_queryTarget (nodes : gmap ElemRef Elem) (doc : list ElemRef)
  (element : ElemRef) (id : string) : option ElemRef :=
  List.find (fun r => bool_decide (dom_id <$> nodes !! r = Some id)) doc.

Definition py_outerHTML (el : Elem) (deep : bool) : string :=
  "<" +:+ tagName el +:+ ">" +:+ (if deep then innerHTML el else "").

(** Two plugins count their [onReady] calls; one of them is [async]. *)
Definition py_main (hook : string) : list (Callback nat) :=
  if bool_decide (hook = "onReady") then
    [SyncFn nat "first" (fun _ _ w => (S w, Normal));
     AsyncFn nat "second" (fun _ _ w => w) (fun _ _ w => (S w, Normal))]
  else [].

(** A plugin whose [onReady] callback throws. *)
Definition py_broken_main (hook : string) : list (Callback nat) :=
  if bool_decide (hook = "onReady") then
    [SyncFn nat "broken" (fun _ _ w => (w, Abrupt (mkError "broken plugin")))]
  else [].

Definition py_sync : gmap string nat := {["sleep" := 40]}.

Abbreviation py_step :=
  (step nat "py" "INVALID_CONTENT" "PY0409" id id attr_sync py_queryTarget py_outerHTML
     py_network py_main py_sync).

Abbreviation py_run :=
  (run_actions nat "py" "INVALID_CONTENT" "PY0409" id id attr_sync py_queryTarget
     py_outerHTML py_network py_main py_sync).

(** An interpreter that runs what it is given, and one that throws. *)
Definition sound_wrap : Wrap := mkWrap 7 8 9 (fun _ => Normal) (fun _ => Done).

Definition failing_wrap : Wrap :=
  mkWrap 7 8 9 (fun _ => Abrupt (mkError "SyntaxError")) (fun _ => Failed (mkError "SyntaxError")).

(** [<script type="py" src="missing.py">print(1)</script>] in the body. *)
Definition a_script : Elem :=
  mkElem "SCRIPT" (Some "missing.py") None true "print(1)" "print(1)" 0 "" None None
    "" false "".

(** [<py-script>print(3)</py-script>] as the parser hands it to the class. *)
Definition a_py_script : Elem :=
  mkElem "PY-SCRIPT" None None true "print(3)" "print(3)" 0 "" None None "" false "".

Definition a_page : State nat :=
  mkState nat 0 false None ∅ {[0 := a_script]} 1 [] [0] ∅ 0 [] [].


Lemma a_page_allocated : allocated nat a_page.
Proof. intros r Hr. simpl in *. apply lookup_singleton_ne. lia. Qed.

Lemma a_script_waits : waiting nat "py" 0 a_page.
Proof.
  left. split; [|reflexivity]. split; [apply a_page_allocated|].
  split; [reflexivity|]. by exists a_script.
Qed.

(** C6 at work: [missing.py] is not served. *)
Lemma fetchSource_falls_back_to_inline_witness :
  attr_src (elem nat a_page 0) = Some "missing.py"
  /\ py_network "missing.py" = inl (mkError "404 Not Found")
  /\ snd (fetchSource nat id id py_network 0 7 true a_page) = Ok "print(1)".
Proof.
  split; [reflexivity|]. split; [reflexivity|].
  apply (fetchSource_falls_back_to_inline nat id id py_network 0 7 true a_page
           "missing.py" (mkError "404 Not Found")); reflexivity.
Defined.

(** C10 at work: the script is readied twice. *)
Lemma module_registered_at_most_once_witness :
  alreadyRegistered nat a_page = false
  /\ registrations (trace nat a_page) = 0
  /\ registrations
       (trace nat (py_run [Invoke OnReady sound_wrap 0; Invoke OnReady sound_wrap 0] a_page))
     <= 1.
Proof.
  split; [reflexivity|]. split; [reflexivity|].
  apply (module_registered_at_most_once nat "py" "INVALID_CONTENT" "PY0409" id id
           attr_sync py_queryTarget py_outerHTML py_network py_main py_sync a_page
           [Invoke OnReady sound_wrap 0; Invoke OnReady sound_wrap 0]); reflexivity.
Defined.

(** C3 at work: the script is readied once and runs. *)
Lemma done_iff_ready_and_run_completed_witness :
  waiting nat "py" 0 a_page
  /\ consumptions 0 (trace nat a_page) = []
  /\ readies 0 [Invoke OnReady sound_wrap 0] <= 1
  /\ ((Dispatch 0 "py" "done" ∈ trace nat (py_run [Invoke OnReady sound_wrap 0] a_page))
      <-> ((Dispatch 0 "py" "ready" ∈ trace nat (py_run [Invoke OnReady sound_wrap 0] a_page))
           /\ (LedgerDelete 0 ∉ trace nat (py_run [Invoke OnReady sound_wrap 0] a_page))
           /\ (exists a code,
                 Run 0 a code Done
                 ∈ trace nat (py_run [Invoke OnReady sound_wrap 0] a_page)))).
Proof.
  split; [apply a_script_waits|]. split; [reflexivity|]. split; [vm_compute; lia|].
  apply (done_iff_ready_and_run_completed nat "py" "INVALID_CONTENT" "PY0409" id id
           attr_sync py_queryTarget py_outerHTML py_network py_main py_sync 0 a_page
           [Invoke OnReady sound_wrap 0]);
    [apply a_script_waits | reflexivity | vm_compute; lia].
Defined.

(** The claim C3 refuted: the interpreter throws on the script's code.
    "ready" was dispatched and no pending error was consumed, and "done" is
    not dispatched. *)
Lemma done_missing_after_ready_counterexample :
  (Dispatch 0 "py" "ready" ∈ trace nat (py_run [Invoke OnReady failing_wrap 0] a_page))
  /\ (LedgerDelete 0 ∉ trace nat (py_run [Invoke OnReady failing_wrap 0] a_page))
  /\ (Dispatch 0 "py" "done" ∉ trace nat (py_run [Invoke OnReady failing_wrap 0] a_page)).
Proof.
  split; [|split]; apply (bool_decide_unpack _); vm_compute; exact I.
Qed.

(** The page after polyscript reported an early error for the script. *)
Definition a_reported_page : State nat :=
  mkState nat 0 false None {[0 := mkError "INVALID_CONTENT"]} {[0 := a_script]} 1 [] [0]
    ∅ 0 [LedgerSet 0] [].

Lemma a_reported_page_eq :
  a_reported_page = py_step a_page (Report (mkError "INVALID_CONTENT") 0).
Proof. reflexivity. Qed.




(** C4 at work: a [py-script] element is made, attached, readied, and
    attached twice more. *)
Lemma custom_element_runs_at_most_once_witness :
  custom_unit nat "py" 1 Idle (py_step a_page (Construct a_py_script))
  /\ length (runs 1 (trace nat
       (py_run [Connect 1; Invoke OnReady sound_wrap 1; Connect 1; Connect 1]
          (py_step a_page (Construct a_py_script))))) <= 1.
Proof.
  assert (custom_unit nat "py" 1 Idle (py_step a_page (Construct a_py_script))) as Hidle.
  { apply (construct_idle nat "py" "INVALID_CONTENT" "PY0409" id id attr_sync
             py_queryTarget py_outerHTML py_network py_main py_sync a_py_script a_page);
      [apply a_page_allocated | reflexivity..]. }
  split; [exact Hidle|].
  apply (custom_element_runs_at_most_once nat "py" "INVALID_CONTENT" "PY0409" id id
           attr_sync py_queryTarget py_outerHTML py_network py_main py_sync 1
           (py_step a_page (Construct a_py_script))
           [Connect 1; Invoke OnReady sound_wrap 1; Connect 1; Connect 1] Hidle).
Defined.

(** C9 at work, on the script. *)
Lemma checkpoints_in_code_order_witness :
  readies 0 [Invoke OnReady sound_wrap 0] <= 1
  /\ script_unit nat 0 a_page
  /\ lifecycle 0 (trace nat a_page) = []
  /\ phases 0 (trace nat (py_run [Invoke OnReady sound_wrap 0] a_page))
       `prefix_of` script_order.
Proof.
  assert (script_unit nat 0 a_page) as Hu.
  { split; [apply a_page_allocated|]. split; [reflexivity|]. by exists a_script. }
  split; [vm_compute; lia|]. split; [exact Hu|]. split; [reflexivity|].
  apply (checkpoints_in_code_order nat "py" "INVALID_CONTENT" "PY0409" id id
           attr_sync py_queryTarget py_outerHTML py_network py_main py_sync 0 a_page
           [Invoke OnReady sound_wrap 0]).
  left. split; [exact Hu|]. split; [reflexivity | vm_compute; lia].
Defined.

(** The claim C9 refuted: on the script, "ready" is dispatched first and the
    source is resolved after it, which is not the order of the state
    machine. *)
Lemma ready_before_source_resolved_counterexample :
  phases 0 (trace nat (py_run [Invoke OnReady sound_wrap 0] a_page))
  = [PReadyDispatched; PSourceResolved; PExecuting; PDoneDispatched]
  /\ ~ (phases 0 (trace nat (py_run [Invoke OnReady sound_wrap 0] a_page))
          `prefix_of` custom_order).
Proof.
  split; [reflexivity|]. intros [rest Hrest]. vm_compute in Hrest. discriminate.
Qed.


(** The module level: two flavours, each with plugins to wait for. *)
Definition the_types : list (string * string) :=
  [("py", "pyodide"); ("mpy", "micropython")].

Definition the_configs : gmap string Config :=
  {["py" := mkConfig ∅ "pyscript.toml" (VFunction 100) None;
    "mpy" := mkConfig ∅ "" (VFunction 101) None]}.

Definition an_empty_page : Page := mkPage ∅ 0 ∅ ∅ ∅ [].

(** C5 at work: the first evaluation sets both flavours up, the second
    adds nothing. *)
Lemma second_load_adopts_first_exports_witness :
  global an_empty_page !! "@pyscript/core" = None
  /\ setup_log (fst (load the_types the_configs (mkImports 50 51) an_empty_page))
     = [PluginsCall "py"; PluginsThen 100 "py" "pyodide";
        PluginsCall "mpy"; PluginsThen 101 "mpy" "micropython"]
  /\ setup_log (fst (load the_types the_configs (mkImports 60 61)
                       (fst (load the_types the_configs (mkImports 50 51) an_empty_page))))
     = setup_log (fst (load the_types the_configs (mkImports 50 51) an_empty_page)).
Proof.
  split; [reflexivity|]. split; [reflexivity|].
  apply (second_load_adopts_first_exports the_types the_configs (mkImports 50 51)
           (mkImports 60 61) an_empty_page eq_refl).
Defined.

(** C8 at work: [PyWorker] is called while the plugins of [py] are still
    loading, and returns the worker's [ready] promise all the same. *)
Lemma worker_spawns_without_waiting_for_plugins_witness :
  the_configs !! "py" = Some (mkConfig ∅ "pyscript.toml" (VFunction 100) None)
  /\ promises an_empty_page !! 100 = None
  /\ snd (PyScriptWorker py_sync the_configs ∅ "py" "pyodide" ∅ "worker.py" None
            an_empty_page) = Returned 1.
Proof.
  split; [reflexivity|]. split; [reflexivity|].
  destruct (worker_spawns_without_waiting_for_plugins py_sync the_configs ∅
              "py" "pyodide" (own_exports the_types (mkImports 50 51) 0)
              (mkConfig ∅ "pyscript.toml" (VFunction 100) None) an_empty_page
              (fst (flavor_setup the_configs "py" "pyodide"
                      (own_exports the_types (mkImports 50 51) 0) an_empty_page))
              ∅ "worker.py" None an_empty_page eq_refl eq_refl eq_refl)
    as (q & _ & _ & _ & Hret & _).
  exact Hret.
Defined.

(** * The further properties at work *)

(** [<script type="py" src="main.py">print(1)</script>], which is served. *)
Definition a_served_script : Elem :=
  mkElem "SCRIPT" (Some "main.py") None true "print(1)" "print(1)" 0 "" None None
    "" false "".

Definition a_served_page : State nat :=
  mkState nat 0 false None ∅ {[0 := a_served_script]} 1 [] [0] ∅ 0 [] [].

(** X1 at work. *)
Lemma fetchSource_served_source_wins_witness :
  attr_src (elem nat a_served_page 0) = Some "main.py"
  /\ py_network "main.py" = inr "print(2)"
  /\ snd (fetchSource nat id id py_network 0 7 true a_served_page) = Ok "print(2)".
Proof.
  split; [reflexivity|]. split; [reflexivity|].
  exact (f_equal snd (fetchSource_served_source_wins nat id id py_network 0 7 true
                        a_served_page "main.py" "print(2)" eq_refl eq_refl)).
Defined.

(** The [py-script] element as its constructor leaves it, and the page
    with it. *)
Definition an_element : Elem :=
  set_executed false (set_srcCode "" (set_wrap (Some (Awaited [])) a_py_script)).

Definition a_page_with_element : State nat :=
  mkState nat 0 false None ∅ (<[1 := an_element]> {[0 := a_script]}) 2 [] [0] ∅ 0 [] [].

Lemma a_page_with_element_eq :
  a_page_with_element = py_step a_page (Construct a_py_script).
Proof. reflexivity. Qed.

Lemma a_page_with_element_allocated : allocated nat a_page_with_element.
Proof.
  intros r Hr. simpl in *. rewrite lookup_insert_ne by lia. apply lookup_singleton_ne. lia.
Qed.

(** X3 at work: an identifier is taken, the script is readied (its display
    element takes the next one), and a third call gives a third
    identifier. *)
Lemma getID_never_repeats_witness :
  id_counter nat (py_run [Invoke OnReady sound_wrap 0] (fst (getID nat "py" a_page)))
  < 2 ^ 53
  /\ snd (getID nat "py" a_page) = Ok "py-0"
  /\ snd (getID nat "py" (py_run [Invoke OnReady sound_wrap 0]
                            (fst (getID nat "py" a_page))))
     <> snd (getID nat "py" a_page).
Proof.
  assert (id_counter nat (py_run [Invoke OnReady sound_wrap 0]
                            (fst (getID nat "py" a_page))) < 2 ^ 53) as Hbelow.
  { change (id_counter nat (py_run [Invoke OnReady sound_wrap 0]
                              (fst (getID nat "py" a_page)))) with 2.
    apply Nat.lt_trans with 53; [|apply Nat.pow_gt_lin_r]; lia. }
  split; [exact Hbelow|]. split; [reflexivity|].
  exact (getID_never_repeats nat "py" "INVALID_CONTENT" "PY0409" id id attr_sync
           py_queryTarget py_outerHTML py_network py_main py_sync "py" a_page
           [Invoke OnReady sound_wrap 0] Hbelow).
Defined.

(** X4 at work. *)
Lemma custom_element_id_is_stable_witness :
  nodes nat a_page_with_element !! 1 = Some an_element
  /\ _wrap an_element = Some (Awaited [])
  /\ snd (read_id nat "py" 1 a_page_with_element) = Ok "py-0"
  /\ snd (read_id nat "py" 1 (fst (read_id nat "py" 1 a_page_with_element))) = Ok "py-0".
Proof.
  split; [reflexivity|]. split; [reflexivity|].
  destruct (custom_element_id_is_stable nat "py" 1 an_element (Awaited [])
              a_page_with_element eq_refl eq_refl) as (i & Hread & _ & Hi & _ & Hagain & _).
  rewrite Hagain, Hread, Hi. split; reflexivity.
Defined.

(** X5 at work. *)
Lemma custom_element_id_set_then_read_witness :
  nodes nat a_page_with_element !! 1 = Some an_element
  /\ _wrap an_element = Some (Awaited [])
  /\ snd (read_id nat "py" 1 (fst (write_id nat 1 "out" a_page_with_element))) = Ok "out".
Proof.
  split; [reflexivity|]. split; [reflexivity|].
  apply (custom_element_id_set_then_read nat "py" 1 an_element (Awaited []) "out"
           a_page_with_element eq_refl eq_refl).
Defined.

(** X6 at work. *)
Lemma module_target_of_script_witness :
  allocated nat a_page
  /\ nodes nat a_page !! 0 = Some a_script
  /\ isScript a_script = true
  /\ truthy (attr_target a_script) = false
  /\ target a_script = None
  /\ snd (module_target nat "py"
            (with_currentElement nat (Some 0)
               (fst (display_target nat "py" py_queryTarget 0 a_script a_page))))
     = Ok "py-0".
Proof.
  split; [apply a_page_allocated|]. do 4 (split; [reflexivity|]).
  exact (f_equal snd (module_target_of_script nat "py" py_queryTarget 0 a_script a_page
                        a_page_allocated eq_refl eq_refl eq_refl eq_refl)).
Defined.

(** X7 at work. *)
Lemma module_target_of_custom_element_witness :
  currentElement nat (with_currentElement nat (Some 1) a_page_with_element) = Some 1
  /\ nodes nat (with_currentElement nat (Some 1) a_page_with_element) !! 1 = Some an_element
  /\ isScript an_element = false
  /\ _wrap an_element = Some (Awaited [])
  /\ snd (module_target nat "py" (with_currentElement nat (Some 1) a_page_with_element))
     = Ok "py-0".
Proof.
  do 4 (split; [reflexivity|]).
  apply (module_target_of_custom_element nat "py" 1 an_element (Awaited [])
           (with_currentElement nat (Some 1) a_page_with_element)
           eq_refl eq_refl eq_refl eq_refl).
Defined.

(** X8 at work. *)
Lemma module_target_needs_a_running_unit_witness :
  currentElement nat a_page = None
  /\ module_target nat "py" a_page
     = (a_page, Throw (TypeError "currentElement is undefined")).
Proof.
  split; [reflexivity|].
  apply (proj1 (module_target_needs_a_running_unit nat "py" a_page)). reflexivity.
Defined.

(** The page once the element is attached, its wrap still to come. *)
Definition a_parked_page : State nat :=
  mkState nat 0 false None ∅
    (<[1 := set_wrap (Some (Awaited [false])) (set_executed true an_element)]>
       {[0 := a_script]})
    2 [] [0] ∅ 0 [Attached 1] [].

Lemma a_parked_page_eq :
  a_parked_page = py_run [Construct a_py_script; Connect 1] a_page.
Proof. reflexivity. Qed.



(** The page once the wrap of the element has come, the element not yet
    attached. *)
Definition a_page_with_wrap : State nat :=
  mkState nat 0 true None ∅
    (<[1 := set_wrap (Some (Settled sound_wrap)) an_element]> {[0 := a_script]})
    2 [] [0] ∅ 2
    [RegisterJsModule 8 "_pyscript" ["PyWorker"; "fs"; "interpreter"; "js_import"; "target"];
     CbCall "onReady" "first"; CbSettle "onReady" "first" Normal;
     CbCall "onReady" "second"; CbSettle "onReady" "second" Normal;
     ConsoleDebug "[pyscript/main] PyScript Ready"]
    [].

Lemma a_page_with_wrap_eq :
  a_page_with_wrap = py_run [Construct a_py_script; Invoke OnReady sound_wrap 1] a_page.
Proof. reflexivity. Qed.

Lemma an_idle_element : custom_unit nat "py" 1 Idle a_page_with_wrap.
Proof.
  split; [|split; [reflexivity|]].
  - intros r Hr. simpl in *. rewrite lookup_insert_ne by lia. apply lookup_singleton_ne. lia.
  - eexists. split; [apply lookup_insert_eq|]. split; [reflexivity|].
    split; [reflexivity|]. split; [right; by eexists | reflexivity].
Qed.

(** X13 at work. *)
Lemma attached_element_shows_its_source_witness :
  custom_unit nat "py" 1 Idle a_page_with_wrap
  /\ srcCode (elem nat (py_step a_page_with_wrap (Connect 1)) 1) = "print(3)"
  /\ executed (elem nat (py_step a_page_with_wrap (Connect 1)) 1) = true.
Proof.
  split; [apply an_idle_element|].
  destruct (attached_element_shows_its_source nat "py" "INVALID_CONTENT" "PY0409" id id
              attr_sync py_queryTarget py_outerHTML py_network py_main py_sync 1
              (set_wrap (Some (Settled sound_wrap)) an_element) sound_wrap
              a_page_with_wrap an_idle_element eq_refl eq_refl)
    as (Hsrc & _ & _ & _ & Hx).
  split; [exact Hsrc | exact Hx].
Defined.

(** X11 at work: the wrap of another interpreter comes for the element
    later on. *)
Lemma custom_element_keeps_first_wrap_witness :
  custom_unit nat "py" 1 Idle a_page_with_wrap
  /\ _wrap (elem nat a_page_with_wrap 1) = Some (Settled sound_wrap)
  /\ _wrap (elem nat (py_run [Invoke OnReady failing_wrap 1; Connect 1] a_page_with_wrap) 1)
     = Some (Settled sound_wrap).
Proof.
  split; [apply an_idle_element|]. split; [reflexivity|].
  apply (custom_element_keeps_first_wrap nat "py" "INVALID_CONTENT" "PY0409" id id
           attr_sync py_queryTarget py_outerHTML py_network py_main py_sync 1 Idle
           a_page_with_wrap sound_wrap [Invoke OnReady failing_wrap 1; Connect 1]
           an_idle_element eq_refl).
Defined.



(** X9 at work. *)
Lemma throwing_plugin_aborts_ready_witness :
  chain_error nat (Some sound_wrap) 0 (py_broken_main "onReady") (pw nat a_reported_page)
  = Some (mkError "broken plugin")
  /\ jobs nat a_reported_page = []
  /\ errors nat (step nat "py" "INVALID_CONTENT" "PY0409" id id attr_sync py_queryTarget
                   py_outerHTML py_network py_broken_main py_sync a_reported_page
                   (Invoke OnReady sound_wrap 0))
     = errors nat a_reported_page
  /\ alreadyRegistered nat
       (step nat "py" "INVALID_CONTENT" "PY0409" id id attr_sync py_queryTarget
          py_outerHTML py_network py_broken_main py_sync a_reported_page
          (Invoke OnReady sound_wrap 0))
     = true.
Proof.
  split; [reflexivity|]. split; [reflexivity|].
  pose proof (throwing_plugin_aborts_ready nat "py" "INVALID_CONTENT" "PY0409" id id
                attr_sync py_queryTarget py_outerHTML py_network py_broken_main py_sync
                sound_wrap 0 a_reported_page (mkError "broken plugin") eq_refl eq_refl)
    as (_ & _ & Herrors & Hflag).
  split; [exact Herrors | exact Hflag].
Defined.

(** A second interpreter. *)
Definition another_wrap : Wrap := mkWrap 17 18 19 (fun _ => Normal) (fun _ => Done).

(** X10 at work. *)
Lemma module_registered_on_first_interpreter_witness :
  alreadyRegistered nat a_page = false
  /\ registered (trace nat a_page) = []
  /\ registered (trace nat (py_run [Invoke OnReady sound_wrap 0;
                                    Invoke OnReady another_wrap 0] a_page))
     = [RegisterJsModule 8 "_pyscript"
          ["PyWorker"; "fs"; "interpreter"; "js_import"; "target"]].
Proof.
  split; [reflexivity|]. split; [reflexivity|].
  apply (module_registered_on_first_interpreter nat "py" "INVALID_CONTENT" "PY0409" id id
           attr_sync py_queryTarget py_outerHTML py_network py_main py_sync a_page
           sound_wrap 0 [Invoke OnReady another_wrap 0] eq_refl eq_refl).
Defined.


(** The config of [mpy] is in error. *)
Definition configs_with_an_error : gmap string Config :=
  {["py" := mkConfig ∅ "pyscript.toml" (VFunction 100) None;
    "mpy" := mkConfig {["name" := VString "broken"]} "" VUndefined
               (Some (mkError "bad config"))]}.

(** X15 at work. *)
Lemma loop_sets_up_every_flavour_witness :
  forallb (well_configured configs_with_an_error) the_types = true
  /\ setup_log (fst (setup_loop configs_with_an_error false the_types
                       (own_exports the_types (mkImports 50 51) 0) an_empty_page))
     = [PluginsCall "py"; PluginsThen 100 "py" "pyodide"]
  /\ exported_config (own_exports the_types (mkImports 50 51) 0)
       (fst (setup_loop configs_with_an_error false the_types
               (own_exports the_types (mkImports 50 51) 0) an_empty_page)) !! "mpy"
     = Some {["name" := VString "broken"]}.
Proof.
  split; [reflexivity|].
  destruct (loop_sets_up_every_flavour the_types configs_with_an_error
              (own_exports the_types (mkImports 50 51) 0) an_empty_page eq_refl)
    as (_ & Hlog & Hexp & _).
  split; [exact Hlog|].
  assert (("mpy", "micropython") ∈ the_types) as Hin.
  { apply (bool_decide_unpack _). vm_compute. exact I. }
  exact (Hexp "mpy" "micropython"
           (mkConfig {["name" := VString "broken"]} "" VUndefined
              (Some (mkError "bad config"))) Hin eq_refl).
Defined.

(** X16 at work. *)
Lemma worker_after_define_gets_hooks_witness :
  flavor_define "py" "pyodide" ∅ an_empty_page
  = (fst (flavor_define "py" "pyodide" ∅ an_empty_page), Ok {["py" := 0]})
  /\ the_configs !! "py" = Some (mkConfig ∅ "pyscript.toml" (VFunction 100) None)
  /\ xw_hooks <$> (xworkers (fst (PyScriptWorker py_sync the_configs ∅ "py" "pyodide"
                                    {["py" := 0]} "worker.py" None an_empty_page)) !! 0)
     = Some (Some 0).
Proof.
  split; [reflexivity|]. split; [reflexivity|].
  destruct (worker_after_define_gets_hooks py_sync the_configs ∅ "py" "pyodide" ∅
              {["py" := 0]} (mkConfig ∅ "pyscript.toml" (VFunction 100) None) 100
              an_empty_page (fst (flavor_define "py" "pyodide" ∅ an_empty_page))
              "worker.py" None an_empty_page eq_refl eq_refl eq_refl)
    as (_ & _ & Hworker).
  exact Hworker.
Defined.

(** X18 at work. *)
Lemma worker_options_and_sync_witness :
  the_configs !! "py" = Some (mkConfig ∅ "pyscript.toml" (VFunction 100) None)
  /\ await (VFunction 100) an_empty_page = Continue
  /\ exists worker,
       xworkers (fst (PyScriptWorker py_sync the_configs ∅ "py" "pyodide" ∅ "worker.py"
                        (Some {["type" := VString "other"]}) an_empty_page)) !! 0
       = Some worker
       /\ xw_options worker !! "type" = Some (VString "pyodide").
Proof.
  split; [reflexivity|]. split; [reflexivity|].
  destruct (worker_options_and_sync py_sync the_configs ∅ "py" "pyodide" ∅ "worker.py"
              (Some {["type" := VString "other"]})
              (mkConfig ∅ "pyscript.toml" (VFunction 100) None) an_empty_page
              eq_refl eq_refl) as (worker & Hworker & _ & Htype & _).
  exists worker. split; [exact Hworker | exact Htype].
Defined.
